(** * k8s-gpu-monitoring: the Prometheus correlators

    A shallow embedding of
      - backend/internal/prometheus/gpu_metrics.go
          (GetGPUMetrics, parseGPUMetrics),
      - the process correlator of the same package
          (GetGPUProcesses, parseGPUProcesses),
      - the response type of backend/internal/prometheus/client.go,
    and the properties of the specification that concern them.

    Go maps are [gmap]s; a [range] over a map visits its entries in an
    order chosen by the runtime, which is a parameter here.  Slices keep
    the difference between the nil slice and an empty one.  Floating
    point enters only through [strconv.ParseFloat] and the conversion
    [int(f)]; both are operations of the runtime interface below. *)

From Stdlib Require Import ZArith String Ascii Sorted.
From stdpp Require Import base option strings list gmap sorting.

Local Open Scope string_scope.
Local Open Scope list_scope.

(** ** Go values *)

(** A slice is either nil or backed by an array. *)
Inductive slice (A : Type) : Type :=
  | nil_slice
  | mk_slice (elems : list A).
Arguments nil_slice {A}.
Arguments mk_slice {A} elems.

Definition elems {A} (s : slice A) : list A :=
  match s with nil_slice => [] | mk_slice l => l end.

(** [append(s, x)]: appending to the nil slice allocates. *)
Definition append {A} (s : slice A) (x : A) : slice A := mk_slice (elems s ++ [x]).

(** A value of type [interface{}] as [encoding/json] decodes it.  The
    correlators only ask whether it is a string. *)
Inductive any : Type :=
  | AnyString (s : string)
  | AnyNumber (n : Z)
  | AnyBool (b : bool)
  | AnyNil.

(** The type assertion [v.(string)] in its two-result form. *)
Definition as_string (v : any) : option string :=
  match v with AnyString s => Some s | _ => None end.

(** A computation that returns or panics (index out of range). *)
Inductive outcome (A : Type) : Type :=
  | Done (a : A)
  | Panic (msg : string).
Arguments Done {A} a.
Arguments Panic {A} msg.

#[global] Instance outcome_ret : MRet outcome := λ A a, Done a.
#[global] Instance outcome_bind : MBind outcome := λ A B f m,
  match m with Done a => f a | Panic msg => Panic msg end.

(** [s[i]] with its bounds check. *)
Definition index {A} (s : list A) (i : nat) : outcome A :=
  match s !! i with
  | Some x => Done x
  | None => Panic "index out of range"
  end.

(** A loop [for _, x := range xs { st = body st x }] whose body may panic. *)
Fixpoint for_each {S X} (body : S → X → outcome S) (st : S) (xs : list X) : outcome S :=
  match xs with
  | [] => Done st
  | x :: xs' => st' ← body st x; for_each body st' xs'
  end.

(** [m[k]] on a [map[string]string]: the zero value when the key is absent. *)
Definition label (m : gmap string string) (k : string) : string := default "" (m !! k).

(** ** strconv.Atoi and strconv.Itoa on a 64-bit platform *)

Definition maxUint64 : Z := 18446744073709551615.
Definition maxInt64 : Z := 9223372036854775807.
Definition minInt64 : Z := -9223372036854775808.

Definition digit_of (c : ascii) : option Z :=
  let n := Z.of_N (N_of_ascii c) in
  if decide (48 ≤ n ≤ 57)%Z then Some (n - 48)%Z else None.

Inductive uint_scan : Type :=
  | ScanOk (n : Z)
  | ScanSyntax
  | ScanRange.

(** The digit loop of [ParseUint(s, 10, 64)]: a byte that is no decimal
    digit is a syntax error, a value above [maxUint64] a range error, and
    whichever comes first ends the loop. *)
Fixpoint parse_uint10 (acc : Z) (s : string) : uint_scan :=
  match s with
  | EmptyString => ScanOk acc
  | String c s' =>
      match digit_of c with
      | None => ScanSyntax
      | Some d =>
          let n1 := (acc * 10 + d)%Z in
          if decide (maxUint64 < n1)%Z then ScanRange else parse_uint10 n1 s'
      end
  end.

(** [strconv.Atoi]: the value and whether [err != nil].  A syntax error
    gives 0, a range error the nearest bound. *)
Definition Atoi (s : string) : Z * bool :=
  let '(neg, digits) :=
    match s with
    | String "+" s' => (false, s')
    | String "-" s' => (true, s')
    | _ => (false, s)
    end in
  match digits with
  | EmptyString => (0%Z, true)
  | _ =>
      match parse_uint10 0 digits with
      | ScanSyntax => (0%Z, true)
      | ScanRange => (if neg then minInt64 else maxInt64, true)
      | ScanOk un =>
          if neg then
            if decide (- minInt64 < un)%Z then (minInt64, true) else ((- un)%Z, false)
          else
            if decide (maxInt64 < un)%Z then (maxInt64, true) else (un, false)
      end
  end.

Definition digit_char (d : Z) : ascii := ascii_of_N (Z.to_N (48 + d)).

(** Decimal digits of [n >= 0] in front of [acc]; twenty digits cover
    every 64-bit value. *)
Fixpoint format_uint (fuel : nat) (n : Z) (acc : string) : string :=
  match fuel with
  | O => acc
  | S fuel' =>
      let acc' := String (digit_char (n mod 10)) acc in
      if decide (n < 10)%Z then acc' else format_uint fuel' (n / 10) acc'
  end.

(** [strconv.Itoa]. *)
Definition Itoa (n : Z) : string :=
  if decide (n < 0)%Z then String "-" (format_uint 20 (- n) "")
  else format_uint 20 n "".

(** ** The runtime *)

(** What the correlators take from the Go runtime and from packages
    outside this model. *)
Class GoRuntime : Type := {
  (** the type [float64] and its zero value *)
  float64 : Type;
  float64_zero : float64;
  (** [strconv.ParseFloat(s, 64)]; [None] when [err != nil] *)
  ParseFloat : string → option float64;
  (** the conversion [int(f)] *)
  int_of_float64 : float64 → Z;
  (** [timeutil.NowJST()]: what the n-th reading of the clock returns *)
  NowJST : nat → string;
  (** the order in which [range] visits the entries of a map *)
  range_order : ∀ A : Type, gmap string A → list (string * A);
  (** [sort.Slice], with [less] on elements *)
  sort_Slice : ∀ A : Type, (A → A → bool) → list A → list A;
}.
Arguments range_order {_ A} m.
Arguments sort_Slice {_ A} less l.

(** The requirement of [sort.Interface] on [Less]: a transitive ordering
    whose incomparability is transitive too. *)
Record strict_weak_order {A} (less : A → A → bool) : Prop := {
  swo_irrefl : ∀ a, less a a = false;
  swo_trans : ∀ a b c, less a b = true → less b c = true → less a c = true;
  swo_incomp : ∀ a b c, less a b = false → less b c = false → less a c = false;
}.

(** What the language and the library promise of [range] and [sort.Slice]. *)
Class GoRuntimeLaws (R : GoRuntime) : Prop := {
  range_order_perm : ∀ A (m : gmap string A), range_order m ≡ₚ map_to_list m;
  sort_Slice_perm : ∀ A (less : A → A → bool) l, sort_Slice less l ≡ₚ l;
  sort_Slice_sorted : ∀ A (less : A → A → bool) l,
    strict_weak_order less → Sorted (λ a b, less b a = false) (sort_Slice less l);
}.

(** ** Errors *)

(** An [error]: a plain message, or what [fmt.Errorf] builds with [%w]. *)
Inductive error : Type :=
  | errorString (msg : string)
  | wrapError (msg : string) (err : error).

Definition error_message (e : error) : string :=
  match e with errorString msg => msg | wrapError msg _ => msg end.

(** [fmt.Errorf("query %s failed: %w", name, err)]. *)
Definition query_failed (name : string) (err : error) : error :=
  wrapError ("query " +:+ name +:+ " failed: " +:+ error_message err) err.

(** ** The data model *)

(** One element of [PrometheusResponse.Data.Result] (client.go). *)
Record Point : Type := {
  Metric : gmap string string;
  Value : list any;
}.

Record ResponseData : Type := {
  ResultType : string;
  Result : list Point;
}.

Record PrometheusResponse : Type := {
  Status : string;
  Data : ResponseData;
  Error : string;
  ErrorType : string;
}.

(** [models.GPUMetrics]: the fields the correlator and its tests name.
    The declaration itself is in a package outside this model. *)
Module GPUMetrics.
Record t : Type := {
  NodeName : string;
  GPUIndex : Z;
  GPUName : string;
  GPUUtilization : Z;
  GPUMemoryUsed : Z;
  GPUMemoryTotal : Z;
  GPUMemoryFree : Z;
  GPUTemperature : Z;
  CPUUtilization : Z;
  MemoryUtilization : Z;
  Timestamp : string;
}.

Definition set_GPUUtilization (v : Z) (m : t) : t :=
  {| NodeName := NodeName m; GPUIndex := GPUIndex m; GPUName := GPUName m;
     GPUUtilization := v; GPUMemoryUsed := GPUMemoryUsed m;
     GPUMemoryTotal := GPUMemoryTotal m; GPUMemoryFree := GPUMemoryFree m;
     GPUTemperature := GPUTemperature m; CPUUtilization := CPUUtilization m;
     MemoryUtilization := MemoryUtilization m; Timestamp := Timestamp m |}.

Definition set_GPUMemoryUsed (v : Z) (m : t) : t :=
  {| NodeName := NodeName m; GPUIndex := GPUIndex m; GPUName := GPUName m;
     GPUUtilization := GPUUtilization m; GPUMemoryUsed := v;
     GPUMemoryTotal := GPUMemoryTotal m; GPUMemoryFree := GPUMemoryFree m;
     GPUTemperature := GPUTemperature m; CPUUtilization := CPUUtilization m;
     MemoryUtilization := MemoryUtilization m; Timestamp := Timestamp m |}.

Definition set_GPUMemoryTotal (v : Z) (m : t) : t :=
  {| NodeName := NodeName m; GPUIndex := GPUIndex m; GPUName := GPUName m;
     GPUUtilization := GPUUtilization m; GPUMemoryUsed := GPUMemoryUsed m;
     GPUMemoryTotal := v; GPUMemoryFree := GPUMemoryFree m;
     GPUTemperature := GPUTemperature m; CPUUtilization := CPUUtilization m;
     MemoryUtilization := MemoryUtilization m; Timestamp := Timestamp m |}.

Definition set_GPUMemoryFree (v : Z) (m : t) : t :=
  {| NodeName := NodeName m; GPUIndex := GPUIndex m; GPUName := GPUName m;
     GPUUtilization := GPUUtilization m; GPUMemoryUsed := GPUMemoryUsed m;
     GPUMemoryTotal := GPUMemoryTotal m; GPUMemoryFree := v;
     GPUTemperature := GPUTemperature m; CPUUtilization := CPUUtilization m;
     MemoryUtilization := MemoryUtilization m; Timestamp := Timestamp m |}.

Definition set_GPUTemperature (v : Z) (m : t) : t :=
  {| NodeName := NodeName m; GPUIndex := GPUIndex m; GPUName := GPUName m;
     GPUUtilization := GPUUtilization m; GPUMemoryUsed := GPUMemoryUsed m;
     GPUMemoryTotal := GPUMemoryTotal m; GPUMemoryFree := GPUMemoryFree m;
     GPUTemperature := v; CPUUtilization := CPUUtilization m;
     MemoryUtilization := MemoryUtilization m; Timestamp := Timestamp m |}.

(** The two assignments of the second pass. *)
Definition set_node_utilization (cpu mem : Z) (m : t) : t :=
  {| NodeName := NodeName m; GPUIndex := GPUIndex m; GPUName := GPUName m;
     GPUUtilization := GPUUtilization m; GPUMemoryUsed := GPUMemoryUsed m;
     GPUMemoryTotal := GPUMemoryTotal m; GPUMemoryFree := GPUMemoryFree m;
     GPUTemperature := GPUTemperature m; CPUUtilization := cpu;
     MemoryUtilization := mem; Timestamp := Timestamp m |}.
End GPUMetrics.

(** [models.GPUProcess], likewise. *)
Module GPUProcess.
Record t : Type := {
  NodeName : string;
  GPUIndex : Z;
  PID : Z;
  ProcessName : string;
  User : string;
  Command : string;
  GPUMemory : Z;
  Timestamp : string;
}.

Definition set_GPUMemory (v : Z) (p : t) : t :=
  {| NodeName := NodeName p; GPUIndex := GPUIndex p; PID := PID p;
     ProcessName := ProcessName p; User := User p; Command := Command p;
     GPUMemory := v; Timestamp := Timestamp p |}.
End GPUProcess.

(** ** The fan-out shared by GetGPUProcesses and GetGPUMetrics

    Both functions start one goroutine per query, each of which stores
    its response in [results] and then sends nil on the channel, or sends
    its error; the caller receives [len(queries)] messages and returns at
    the first that is an error. *)

Module Fanout.
Section code.
Variable Query : string → PrometheusResponse + error.

(** One goroutine: what it stores in [results] and what it sends. *)
Definition query_task (name query : string)
    : option PrometheusResponse * option error :=
  match Query query with
  | inr err => (None, Some (query_failed name err))
  | inl resp => (Some resp, None)
  end.

(** The receiving loop: the first non-nil message ends the call. *)
Fixpoint first_error (msgs : list (option error)) : option error :=
  match msgs with
  | [] => None
  | Some err :: _ => Some err
  | None :: msgs' => first_error msgs'
  end.

(** The messages of the goroutines [tasks], in that order. *)
Definition messages (tasks : list (string * string)) : list (option error) :=
  (λ task, (query_task task.1 task.2).2) <$> tasks.

(** The [results] map once every goroutine of [tasks] has written. *)
Definition collect (tasks : list (string * string))
    : gmap string (option PrometheusResponse) :=
  foldl (λ results task,
           match (query_task task.1 task.2).1 with
           | Some resp => <[task.1 := Some resp]> results
           | None => results
           end) ∅ tasks.
End code.
End Fanout.

(** ** The process correlator *)

Module Processes.
Section code.
Context {R : GoRuntime}.

(** [processMap], and how often the clock has been read. *)
Record state : Type := {
  processMap : gmap string GPUProcess.t;
  clock : nat;
}.

Definition initial : state := {| processMap := ∅; clock := 0 |}.

(** The body of the inner loop of parseGPUProcesses for one [result]. *)
Definition process_point (metricType : string) (st : state) (result : Point)
    : outcome state :=
  let nodeName := label (Metric result) "hostname" in
  let gpuIndex := label (Metric result) "gpu_id" in
  let pidStr := label (Metric result) "pid" in
  if decide (nodeName = "" ∨ gpuIndex = "" ∨ pidStr = "") then Done st else
  let key := nodeName +:+ ":" +:+ gpuIndex +:+ ":" +:+ pidStr in
  let '(proc, clock') :=
    match processMap st !! key with
    | Some proc => (proc, clock st)
    | None =>
        let idx := (Atoi gpuIndex).1 in
        let pid := (Atoi pidStr).1 in
        ({| GPUProcess.NodeName := nodeName;
            GPUProcess.GPUIndex := idx;
            GPUProcess.PID := pid;
            GPUProcess.ProcessName := label (Metric result) "process_name";
            GPUProcess.User := label (Metric result) "user";
            GPUProcess.Command := label (Metric result) "command";
            GPUProcess.GPUMemory := 0;
            GPUProcess.Timestamp := NowJST (clock st) |},
         S (clock st))
    end in
  let skipped := {| processMap := processMap st; clock := clock' |} in
  if decide (length (Value result) < 2) then Done skipped else
  v ← index (Value result) 1;
  match as_string v with
  | None => Done skipped
  | Some valueStr =>
      match ParseFloat valueStr with
      | None => Done skipped
      | Some value =>
          let proc :=
            if decide (metricType = "gpu_memory")
            then GPUProcess.set_GPUMemory (int_of_float64 value) proc
            else proc in
          Done {| processMap := <[key := proc]> (processMap st); clock := clock' |}
      end
  end.

(** The body of the outer loop: a nil response is passed over. *)
Definition process_response (st : state) (entry : string * option PrometheusResponse)
    : outcome state :=
  match entry.2 with
  | None => Done st
  | Some response => for_each (process_point entry.1) st (Result (Data response))
  end.

(** The comparison given to [sort.Slice]. *)
Definition less (a b : GPUProcess.t) : bool :=
  if negb (String.eqb (GPUProcess.NodeName a) (GPUProcess.NodeName b))
  then String.ltb (GPUProcess.NodeName a) (GPUProcess.NodeName b)
  else if negb (Z.eqb (GPUProcess.GPUIndex a) (GPUProcess.GPUIndex b))
  then Z.ltb (GPUProcess.GPUIndex a) (GPUProcess.GPUIndex b)
  else Z.ltb (GPUProcess.PID a) (GPUProcess.PID b).

Definition parseGPUProcesses (results : gmap string (option PrometheusResponse))
    : outcome (slice GPUProcess.t * option error) :=
  st ← for_each process_response initial (range_order results);
  if decide (size (processMap st) = 0) then Done (mk_slice [], None) else
  let processes :=
    foldl (λ s kv, append s kv.2) (mk_slice []) (range_order (processMap st)) in
  Done (mk_slice (sort_Slice less (elems processes)), None).

Definition queries : gmap string string :=
  {[ "gpu_memory" := "gpu_process_gpu_memory" ]}.

(** GetGPUProcesses.  Each query runs in its own goroutine and sends
    one message; [arrival] lists the goroutines in the order in which
    their messages are received. *)
Definition GetGPUProcesses (Query : string → PrometheusResponse + error)
    (arrival : list (string * string))
    : outcome (slice GPUProcess.t * option error) :=
  match Fanout.first_error (Fanout.messages Query arrival) with
  | Some err => Done (nil_slice, Some err)
  | None => parseGPUProcesses (Fanout.collect Query arrival)
  end.
End code.
End Processes.

(** ** The metrics correlator (gpu_metrics.go) *)

Module Metrics.
Section code.
Context {R : GoRuntime}.

(** The anonymous struct stored in [nodeUtilization]. *)
Record NodeUtil : Type := {
  cpuUtilization : float64;
  memoryUtilization : float64;
}.

Definition zero_util : NodeUtil :=
  {| cpuUtilization := float64_zero; memoryUtilization := float64_zero |}.

(** [metricsMap], [nodeUtilization], and how often the clock has been read. *)
Record state : Type := {
  metricsMap : gmap string GPUMetrics.t;
  nodeUtilization : gmap string NodeUtil;
  clock : nat;
}.

Definition initial : state :=
  {| metricsMap := ∅; nodeUtilization := ∅; clock := 0 |}.

(** The [switch metricType] that routes a value into its field. *)
Definition set_value (metricType : string) (v : Z) (metricsEntry : GPUMetrics.t)
    : GPUMetrics.t :=
  if decide (metricType = "gpu_mem_free") then GPUMetrics.set_GPUMemoryFree v metricsEntry
  else if decide (metricType = "gpu_mem_used") then GPUMetrics.set_GPUMemoryUsed v metricsEntry
  else if decide (metricType = "gpu_mem_total") then GPUMetrics.set_GPUMemoryTotal v metricsEntry
  else if decide (metricType = "gpu_utilization") then GPUMetrics.set_GPUUtilization v metricsEntry
  else if decide (metricType = "gpu_temperature") then GPUMetrics.set_GPUTemperature v metricsEntry
  else metricsEntry.

(** The body of the inner loop of parseGPUMetrics for one [result]. *)
Definition metrics_point (metricType : string) (st : state) (result : Point)
    : outcome state :=
  let nodeName := label (Metric result) "hostname" in
  let gpuIndex := label (Metric result) "gpu_id" in
  let gpuName := label (Metric result) "gpu_name" in
  if decide (nodeName = "") then Done st else
  if decide (length (Value result) < 2) then Done st else
  v ← index (Value result) 1;
  match as_string v with
  | None => Done st
  | Some valueStr =>
      match ParseFloat valueStr with
      | None => Done st
      | Some value =>
          if decide (metricType = "cpu_utilization" ∨ metricType = "memory_utilization")
          then
            let util := default zero_util (nodeUtilization st !! nodeName) in
            let util :=
              if decide (metricType = "cpu_utilization")
              then {| cpuUtilization := value;
                      memoryUtilization := memoryUtilization util |}
              else {| cpuUtilization := cpuUtilization util;
                      memoryUtilization := value |} in
            Done {| metricsMap := metricsMap st;
                    nodeUtilization := <[nodeName := util]> (nodeUtilization st);
                    clock := clock st |}
          else
          if decide (gpuIndex = "") then Done st else
          let key := nodeName +:+ ":" +:+ gpuIndex in
          let '(metricsEntry, clock') :=
            match metricsMap st !! key with
            | Some metricsEntry => (metricsEntry, clock st)
            | None =>
                let idx := (Atoi gpuIndex).1 in
                ({| GPUMetrics.NodeName := nodeName;
                    GPUMetrics.GPUIndex := idx;
                    GPUMetrics.GPUName := gpuName;
                    GPUMetrics.GPUUtilization := 0;
                    GPUMetrics.GPUMemoryUsed := 0;
                    GPUMetrics.GPUMemoryTotal := 0;
                    GPUMetrics.GPUMemoryFree := 0;
                    GPUMetrics.GPUTemperature := 0;
                    GPUMetrics.CPUUtilization := 0;
                    GPUMetrics.MemoryUtilization := 0;
                    GPUMetrics.Timestamp := NowJST (clock st) |},
                 S (clock st))
            end in
          let metricsEntry := set_value metricType (int_of_float64 value) metricsEntry in
          Done {| metricsMap := <[key := metricsEntry]> (metricsMap st);
                  nodeUtilization := nodeUtilization st;
                  clock := clock' |}
      end
  end.

(** The body of the outer loop; [response.Data] on a nil pointer panics. *)
Definition metrics_response (st : state) (entry : string * option PrometheusResponse)
    : outcome state :=
  match entry.2 with
  | None => Panic "nil pointer dereference"
  | Some response => for_each (metrics_point entry.1) st (Result (Data response))
  end.

(** The second loop: node-level utilization onto every GPU of the node. *)
Definition apply_node_utilization (nodeUtilization : gmap string NodeUtil)
    (metricsMap : gmap string GPUMetrics.t) : gmap string GPUMetrics.t :=
  foldl (λ m kv,
           let metricsEntry := kv.2 in
           let nodeName := GPUMetrics.NodeName metricsEntry in
           match nodeUtilization !! nodeName with
           | Some util =>
               <[kv.1 := GPUMetrics.set_node_utilization
                           (int_of_float64 (cpuUtilization util))
                           (int_of_float64 (memoryUtilization util))
                           metricsEntry]> m
           | None => m
           end) metricsMap (range_order metricsMap).

(** The third loop: [var gpuMetrics []models.GPUMetrics] and its appends. *)
Definition to_slice (metricsMap : gmap string GPUMetrics.t) : slice GPUMetrics.t :=
  foldl (λ gpuMetrics kv, append gpuMetrics kv.2) nil_slice (range_order metricsMap).

Definition parseGPUMetrics (results : gmap string (option PrometheusResponse))
    : outcome (slice GPUMetrics.t * option error) :=
  st ← for_each metrics_response initial (range_order results);
  let metricsMap := apply_node_utilization (nodeUtilization st) (metricsMap st) in
  Done (to_slice metricsMap, None).

Definition queries : gmap string string :=
  {[ "gpu_mem_free" := "gpu_metrics_free_memory";
     "gpu_mem_used" := "gpu_metrics_used_memory";
     "gpu_mem_total" := "gpu_metrics_total_memory";
     "gpu_utilization" := "gpu_metrics_utilization_percent";
     "gpu_temperature" := "gpu_metrics_temperature";
     "cpu_utilization" := "gpu_metrics_cpu_utilization";
     "memory_utilization" := "gpu_metrics_memory_utilization" ]}.

(** GetGPUMetrics; [arrival] as in GetGPUProcesses. *)
Definition GetGPUMetrics (Query : string → PrometheusResponse + error)
    (arrival : list (string * string))
    : outcome (slice GPUMetrics.t * option error) :=
  match Fanout.first_error (Fanout.messages Query arrival) with
  | Some err => Done (nil_slice, Some err)
  | None => parseGPUMetrics (Fanout.collect Query arrival)
  end.
End code.
End Metrics.

(** ** A reference runtime

    An executable runtime on which the examples are evaluated.  Its
    [ParseFloat] reads plain decimal literals (sign, digits, at most one
    point) and keeps them exactly; its [int(f)] drops the fraction.  Go's
    ParseFloat reads more (exponents, hexadecimal literals, infinities,
    NaN) and rounds to binary64; the two agree on the short plain literals
    used below.  Maps are visited in the order of [map_to_list] and
    slices are sorted by merge sort. *)

Module Reference.
(** [(-1)^neg * mantissa / 10^scale] *)
Record decimal : Type := {
  dec_neg : bool;
  dec_mantissa : Z;
  dec_scale : nat;
}.

Fixpoint scan_decimal (seen_point : bool) (ndigits : nat) (mantissa : Z) (scale : nat)
    (s : string) : option (Z * nat) :=
  match s with
  | EmptyString => if ndigits is O then None else Some (mantissa, scale)
  | String c s' =>
      match digit_of c with
      | Some d =>
          scan_decimal seen_point (S ndigits) (mantissa * 10 + d)
            (if seen_point then S scale else scale) s'
      | None =>
          if decide (c = "."%char ∧ seen_point = false)
          then scan_decimal true ndigits mantissa scale s'
          else None
      end
  end.

Definition parse_decimal (s : string) : option decimal :=
  let '(neg, body) :=
    match s with
    | String "+" s' => (false, s')
    | String "-" s' => (true, s')
    | _ => (false, s)
    end in
  '(mantissa, scale) ← scan_decimal false 0 0 0 body;
  Some {| dec_neg := neg; dec_mantissa := mantissa; dec_scale := scale |}.

(** Truncation toward zero. *)
Definition truncate (d : decimal) : Z :=
  let q := (dec_mantissa d ÷ 10 ^ Z.of_nat (dec_scale d))%Z in
  if dec_neg d then (- q)%Z else q.

(** [a] may stand before [b]. *)
Definition not_after {A} (less : A → A → bool) (a b : A) : Prop := less b a = false.

#[global] Instance not_after_dec {A} (less : A → A → bool) a b :
  Decision (not_after less a b).
Proof. unfold not_after. apply _. Defined.

Definition sort {A} (less : A → A → bool) (l : list A) : list A :=
  merge_sort (not_after less) l.

#[global] Instance runtime : GoRuntime := {|
  float64 := decimal;
  float64_zero := {| dec_neg := false; dec_mantissa := 0; dec_scale := 0 |};
  ParseFloat := parse_decimal;
  int_of_float64 := truncate;
  NowJST := λ n, "2025-01-01T09:00:00+09:00";
  range_order := λ A m, map_to_list m;
  sort_Slice := λ A less l, sort less l;
|}.
End Reference.

(** ** Notions used in the statements *)

(** The value a point carries: the second element of its value pair, if
    it is there, is a string, and parses. *)
Definition parsed_value {R : GoRuntime} (p : Point) : option float64 :=
  v ← Value p !! 1; s ← as_string v; ParseFloat s.

(** The runtime parses the literal [s] and converts the result to [z]. *)
Definition reads {R : GoRuntime} (s : string) (z : Z) : Prop :=
  int_of_float64 <$> ParseFloat s = Some z.

(** The value pair is too short, or its second element is no string. *)
Definition malformed_value (p : Point) : Prop :=
  length (Value p) < 2 ∨ ∃ v, Value p !! 1 = Some v ∧ as_string v = None.

(** The points of one entry of [results], each with its metric type. *)
Definition points_of (entry : string * option PrometheusResponse) : list (string * Point) :=
  match entry.2 with
  | None => []
  | Some response => (λ p, (entry.1, p)) <$> Result (Data response)
  end.

(** All points of [results], in the order in which the two nested loops
    of a correlator visit them. *)
Definition points_in_order {R : GoRuntime} (results : gmap string (option PrometheusResponse))
    : list (string * Point) :=
  range_order results ≫= points_of.

(** No entry of [results] holds a nil response. *)
Definition no_nil (results : gmap string (option PrometheusResponse)) : Prop :=
  ∀ name, results !! name ≠ Some None.

(** Lexicographic order on strings, byte by byte. *)
Definition string_lt (a b : string) : Prop := String.compare a b = Lt.

(** [x] is the first (the last) element of [l] with the property [P]. *)
Definition first_where {A} (P : A → Prop) (l : list A) (x : A) : Prop :=
  ∃ pre post, l = pre ++ x :: post ∧ P x ∧ Forall (λ y, ¬ P y) pre.

Definition last_where {A} (P : A → Prop) (l : list A) (x : A) : Prop :=
  ∃ pre post, l = pre ++ x :: post ∧ P x ∧ Forall (λ y, ¬ P y) post.

(** [x] is what the last element of [l] with the property [P] carries, or
    the default when there is none. *)
Definition last_written {A V} (P : A → Prop) (val : A → option V) (l : list A)
    (dflt x : V) : Prop :=
  (Forall (λ a, ¬ P a) l ∧ x = dflt) ∨ (∃ last, last_where P l last ∧ val last = Some x).

Module ProcessSpec.
Section defs.
Context {R : GoRuntime}.

Definition hostname (p : Point) : string := label (Metric p) "hostname".
Definition gpu_id (p : Point) : string := label (Metric p) "gpu_id".
Definition pid (p : Point) : string := label (Metric p) "pid".

(** The map key of a point. *)
Definition key_of (p : Point) : string :=
  hostname p +:+ ":" +:+ gpu_id p +:+ ":" +:+ pid p.

(** All three identity labels are present. *)
Definition identified (p : Point) : Prop :=
  hostname p ≠ "" ∧ gpu_id p ≠ "" ∧ pid p ≠ "".

#[global] Instance identified_dec p : Decision (identified p).
Proof. unfold identified. apply _. Defined.

(** The record a point gives rise to when its key is new. *)
Definition new_process (p : Point) (now : string) : GPUProcess.t :=
  {| GPUProcess.NodeName := hostname p;
     GPUProcess.GPUIndex := (Atoi (gpu_id p)).1;
     GPUProcess.PID := (Atoi (pid p)).1;
     GPUProcess.ProcessName := label (Metric p) "process_name";
     GPUProcess.User := label (Metric p) "user";
     GPUProcess.Command := label (Metric p) "command";
     GPUProcess.GPUMemory := 0;
     GPUProcess.Timestamp := now |}.

(** What a point stores, if anything: its key and its value. *)
Definition stores (p : Point) : option (string * float64) :=
  if decide (identified p) then v ← parsed_value p; Some (key_of p, v) else None.

(** The point stores under the key [k]. *)
Definition stores_at (k : string) (mp : string * Point) : Prop :=
  ∃ v, stores mp.2 = Some (k, v).

(** One iteration of the inner loop, as a state transformer. *)
Definition step (st : Processes.state) (mp : string * Point) : Processes.state :=
  match Processes.process_point mp.1 st mp.2 with
  | Done st' => st'
  | Panic _ => st
  end.

(** The map after the two nested loops. *)
Definition run (pts : list (string * Point)) : Processes.state :=
  foldl step Processes.initial pts.

(** The composite key order of the output. *)
Definition key_le (a b : GPUProcess.t) : Prop :=
  string_lt (GPUProcess.NodeName a) (GPUProcess.NodeName b) ∨
  (GPUProcess.NodeName a = GPUProcess.NodeName b ∧
   ((GPUProcess.GPUIndex a < GPUProcess.GPUIndex b)%Z ∨
    (GPUProcess.GPUIndex a = GPUProcess.GPUIndex b ∧
     (GPUProcess.PID a ≤ GPUProcess.PID b)%Z))).

(** Each record and its successor are in the order of the composite key. *)
Definition ascending (l : list GPUProcess.t) : Prop :=
  ∀ i a b, l !! i = Some a → l !! S i = Some b → key_le a b.

(** The list parseGPUProcesses returns for a given [processMap]. *)
Definition output (processMap : gmap string GPUProcess.t) : list GPUProcess.t :=
  if decide (size processMap = 0) then []
  else sort_Slice Processes.less ((range_order processMap).*2).

(** A response without the points that lack an identity label. *)
Definition keep_identified (response : PrometheusResponse) : PrometheusResponse :=
  {| Status := Status response;
     Data := {| ResultType := ResultType (Data response);
                Result := filter identified (Result (Data response)) |};
     Error := Error response;
     ErrorType := ErrorType response |}.

Definition drop_unidentified (entry : string * option PrometheusResponse)
    : string * option PrometheusResponse :=
  (entry.1, keep_identified <$> entry.2).
End defs.
End ProcessSpec.

Module MetricSpec.
Section defs.
Context {R : GoRuntime}.

Definition hostname (p : Point) : string := label (Metric p) "hostname".
Definition gpu_id (p : Point) : string := label (Metric p) "gpu_id".
Definition gpu_name (p : Point) : string := label (Metric p) "gpu_name".

(** The map key of a point of a per-GPU metric. *)
Definition key_of (p : Point) : string := hostname p +:+ ":" +:+ gpu_id p.

(** The two metrics that belong to a node, not to a GPU. *)
Definition node_scoped (metricType : string) : Prop :=
  metricType = "cpu_utilization" ∨ metricType = "memory_utilization".

(** The record a point gives rise to when its key is new. *)
Definition new_entry (p : Point) (now : string) : GPUMetrics.t :=
  {| GPUMetrics.NodeName := hostname p;
     GPUMetrics.GPUIndex := (Atoi (gpu_id p)).1;
     GPUMetrics.GPUName := gpu_name p;
     GPUMetrics.GPUUtilization := 0;
     GPUMetrics.GPUMemoryUsed := 0;
     GPUMetrics.GPUMemoryTotal := 0;
     GPUMetrics.GPUMemoryFree := 0;
     GPUMetrics.GPUTemperature := 0;
     GPUMetrics.CPUUtilization := 0;
     GPUMetrics.MemoryUtilization := 0;
     GPUMetrics.Timestamp := now |}.

(** What a point stores in [metricsMap], if anything: key and value. *)
Definition stores (mp : string * Point) : option (string * float64) :=
  if decide (hostname mp.2 ≠ "" ∧ ¬ node_scoped mp.1 ∧ gpu_id mp.2 ≠ "")
  then v ← parsed_value mp.2; Some (key_of mp.2, v)
  else None.

(** What a point stores in [nodeUtilization], if anything: node and value. *)
Definition node_stores (mp : string * Point) : option (string * float64) :=
  if decide (hostname mp.2 ≠ "" ∧ node_scoped mp.1)
  then v ← parsed_value mp.2; Some (hostname mp.2, v)
  else None.

Definition stores_at (k : string) (mp : string * Point) : Prop :=
  ∃ v, stores mp = Some (k, v).

Definition node_stores_at (n : string) (mp : string * Point) : Prop :=
  ∃ v, node_stores mp = Some (n, v).

(** The assignment to one field of the side table entry. *)
Definition set_util (metricType : string) (value : float64) (util : Metrics.NodeUtil)
    : Metrics.NodeUtil :=
  if decide (metricType = "cpu_utilization")
  then {| Metrics.cpuUtilization := value;
          Metrics.memoryUtilization := Metrics.memoryUtilization util |}
  else {| Metrics.cpuUtilization := Metrics.cpuUtilization util;
          Metrics.memoryUtilization := value |}.

(** The five fields a per-GPU metric is routed into. *)
Inductive field : Type := Free | Used | Total | Utilization | Temperature.

Definition field_metric (f : field) : string :=
  match f with
  | Free => "gpu_mem_free"
  | Used => "gpu_mem_used"
  | Total => "gpu_mem_total"
  | Utilization => "gpu_utilization"
  | Temperature => "gpu_temperature"
  end.

Definition field_get (f : field) (m : GPUMetrics.t) : Z :=
  match f with
  | Free => GPUMetrics.GPUMemoryFree m
  | Used => GPUMetrics.GPUMemoryUsed m
  | Total => GPUMetrics.GPUMemoryTotal m
  | Utilization => GPUMetrics.GPUUtilization m
  | Temperature => GPUMetrics.GPUTemperature m
  end.

(** The two fields of a side table entry. *)
Inductive node_field : Type := Cpu | Mem.

Definition node_field_metric (f : node_field) : string :=
  match f with Cpu => "cpu_utilization" | Mem => "memory_utilization" end.

Definition node_field_get (f : node_field) (u : Metrics.NodeUtil) : float64 :=
  match f with Cpu => Metrics.cpuUtilization u | Mem => Metrics.memoryUtilization u end.

(** The point writes the field [f] of the record under [k]. *)
Definition writes (f : field) (k : string) (mp : string * Point) : Prop :=
  mp.1 = field_metric f ∧ stores_at k mp.

(** The point writes the field [f] of the side table entry of node [n]. *)
Definition node_writes (f : node_field) (n : string) (mp : string * Point) : Prop :=
  mp.1 = node_field_metric f ∧ node_stores_at n mp.

(** One iteration of the inner loop, as a state transformer. *)
Definition step (st : Metrics.state) (mp : string * Point) : Metrics.state :=
  match Metrics.metrics_point mp.1 st mp.2 with
  | Done st' => st'
  | Panic _ => st
  end.

(** The state after the two nested loops. *)
Definition run (pts : list (string * Point)) : Metrics.state :=
  foldl step Metrics.initial pts.

(** What the second loop does to one record. *)
Definition with_node_utilization (nodeUtilization : gmap string Metrics.NodeUtil)
    (m : GPUMetrics.t) : GPUMetrics.t :=
  match nodeUtilization !! GPUMetrics.NodeName m with
  | Some util =>
      GPUMetrics.set_node_utilization
        (int_of_float64 (Metrics.cpuUtilization util))
        (int_of_float64 (Metrics.memoryUtilization util)) m
  | None => m
  end.

(** The record [r] of the first pass was created from the point [p]. *)
Definition stems_from (r : GPUMetrics.t) (p : Point) : Prop :=
  GPUMetrics.NodeName r = hostname p ∧
  GPUMetrics.GPUIndex r = (Atoi (gpu_id p)).1 ∧
  GPUMetrics.GPUName r = gpu_name p ∧
  GPUMetrics.CPUUtilization r = 0%Z ∧
  GPUMetrics.MemoryUtilization r = 0%Z.

(** The value a point writes into a field of a record. *)
Definition written_value (mp : string * Point) : option Z :=
  (λ kv, int_of_float64 kv.2) <$> stores mp.

(** The value a point writes into a field of a side table entry. *)
Definition node_written_value (mp : string * Point) : option float64 :=
  snd <$> node_stores mp.

(** A gpu_id label as a program writes an index: the decimal rendering
    of a 64-bit integer. *)
Definition canonical_index (s : string) : Prop :=
  ∃ n, (minInt64 ≤ n ≤ maxInt64)%Z ∧ s = Itoa n.
End defs.
End MetricSpec.

(** ** Keys and identities *)

Module Keys.
Section defs.
Context {R : GoRuntime}.

(** No byte of [s] is a colon. *)
Fixpoint colon_free (s : string) : bool :=
  match s with
  | EmptyString => true
  | String c s' => negb (Ascii.eqb c ":") && colon_free s'
  end.

(** The keys under which the points of [pts] store a process record. *)
Definition process_keys (pts : list (string * Point)) : gset string :=
  list_to_set (omap (λ mp, fst <$> ProcessSpec.stores mp.2) pts).

(** The keys under which the points of [pts] store a GPU record. *)
Definition metric_keys (pts : list (string * Point)) : gset string :=
  list_to_set (omap (λ mp, fst <$> MetricSpec.stores mp) pts).

(** [fmt.Sprintf("%s:%d:%d", p.NodeName, p.GPUIndex, p.PID)], the key by
    which the tests of the repository identify a process record. *)
Definition process_identity (p : GPUProcess.t) : string :=
  GPUProcess.NodeName p +:+ ":" +:+ Itoa (GPUProcess.GPUIndex p) +:+ ":" +:+
  Itoa (GPUProcess.PID p).

(** [fmt.Sprintf("%s:%d", m.NodeName, m.GPUIndex)], likewise. *)
Definition metric_identity (m : GPUMetrics.t) : string :=
  GPUMetrics.NodeName m +:+ ":" +:+ Itoa (GPUMetrics.GPUIndex m).

(** Every gpu_id and pid label that is present renders an integer. *)
Definition canonical_labels (pts : list (string * Point)) : Prop :=
  ∀ mp, mp ∈ pts →
    (ProcessSpec.gpu_id mp.2 = "" ∨ MetricSpec.canonical_index (ProcessSpec.gpu_id mp.2)) ∧
    (ProcessSpec.pid mp.2 = "" ∨ MetricSpec.canonical_index (ProcessSpec.pid mp.2)).

(** The composite key order, strict. *)
Definition key_lt (a b : GPUProcess.t) : Prop :=
  string_lt (GPUProcess.NodeName a) (GPUProcess.NodeName b) ∨
  (GPUProcess.NodeName a = GPUProcess.NodeName b ∧
   ((GPUProcess.GPUIndex a < GPUProcess.GPUIndex b)%Z ∨
    (GPUProcess.GPUIndex a = GPUProcess.GPUIndex b ∧
     (GPUProcess.PID a < GPUProcess.PID b)%Z))).
(** A point that reaches one of the two maps of the metrics correlator. *)
Definition contributes (mp : string * Point) : Prop :=
  is_Some (MetricSpec.stores mp) ∨ is_Some (MetricSpec.node_stores mp).

#[global] Instance contributes_dec mp : Decision (contributes mp).
Proof. unfold contributes. apply _. Defined.

(** An entry of [results] without the points that reach neither map. *)
Definition keep_contributing (entry : string * option PrometheusResponse)
    : string * option PrometheusResponse :=
  (entry.1,
   (λ response,
      {| Status := Status response;
         Data := {| ResultType := ResultType (Data response);
                    Result := filter (λ p, contributes (entry.1, p))
                                (Result (Data response)) |};
         Error := Error response;
         ErrorType := ErrorType response |}) <$> entry.2).
End defs.
End Keys.

(** ** The client (client.go) *)

Module Client.
(** [strings.HasSuffix] and [strings.TrimSuffix]. *)
Definition HasSuffix (s suffix : string) : bool :=
  Nat.leb (String.length suffix) (String.length s) &&
  String.eqb
    (substring (String.length s - String.length suffix) (String.length suffix) s)
    suffix.

Definition TrimSuffix (s suffix : string) : string :=
  if HasSuffix s suffix
  then substring 0 (String.length s - String.length suffix) s
  else s.

(** What Query takes from the packages time, net/url, net/http, io and
    encoding/json. *)
Class Network : Type := {
  (** [time.Now().Unix()] at the moment the query is issued *)
  Unix : string → Z;
  (** [url.QueryEscape] *)
  QueryEscape : string → string;
  (** [http.NewRequestWithContext(ctx, "GET", url, nil)]: its error, if any *)
  NewRequest : string → option error;
  (** [httpClient.Do] with the timeout of the client, then [io.ReadAll]
      on the body: an error of the transport, or the status code and
      the body or the error of reading it *)
  Do : Z → string → error + (Z * (error + string));
  (** [json.Unmarshal] of the body into a PrometheusResponse *)
  Unmarshal : string → PrometheusResponse + error;
}.

(** The struct Client; the timeout of its [http.Client] in seconds. *)
Record t : Type := {
  baseURL : string;
  Timeout : Z;
}.

Definition NewClient (baseURL : string) : t :=
  {| baseURL := TrimSuffix baseURL "/"; Timeout := 30 |}.

(** [fmt.Errorf(msg + ": %w", err)]. *)
Definition wrap (msg : string) (err : error) : error :=
  wrapError (msg +:+ ": " +:+ error_message err) err.

Section code.
Context {N : Network}.

(** The URL of the request: [params.Encode()] writes the keys in order. *)
Definition request_url (c : t) (query : string) : string :=
  let queryURL := baseURL c +:+ "/api/v1/query" in
  let params :=
    "query=" +:+ QueryEscape query +:+ "&time=" +:+ QueryEscape (Itoa (Unix query)) in
  queryURL +:+ "?" +:+ params.

Definition Query (c : t) (query : string) : PrometheusResponse + error :=
  let url := request_url c query in
  match NewRequest url with
  | Some err => inr (wrap "creating request" err)
  | None =>
      match Do (Timeout c) url with
      | inl err => inr (wrap "executing request" err)
      | inr (StatusCode, inl err) => inr (wrap "reading response body" err)
      | inr (StatusCode, inr body) =>
          if decide (StatusCode ≠ 200%Z) then
            inr (errorString ("prometheus API error: status " +:+ Itoa StatusCode +:+
                              ", body: " +:+ body))
          else
            match Unmarshal body with
            | inr err => inr (wrap "unmarshaling response" err)
            | inl promResp =>
                if decide (Status promResp ≠ "success") then
                  inr (errorString ("prometheus query failed: " +:+ ErrorType promResp +:+
                                    " - " +:+ Error promResp))
                else inl promResp
            end
      end
  end.
End code.
End Client.

(** ** The handlers, as the tests of the repository define them
       (TestableGPUHandler in backend/test/prometheus/gpu_metrics_test.go) *)

Module Handlers.
(** The interface PrometheusClient; the context argument is left out. *)
Record PrometheusClient {R : GoRuntime} : Type := {
  client_GetGPUMetrics : outcome (slice GPUMetrics.t * option error);
  client_GetGPUProcesses : outcome (slice GPUProcess.t * option error);
  client_Query : string → PrometheusResponse + error;
}.

(** [models.APIResponse] with the fields the handlers set; [Data] holds
    any value and is nil when it is not set. *)
Record APIResponse (D : Type) : Type := {
  Success : bool;
  Message : string;
  Data : option D;
  Error : string;
}.
Arguments Success {D} _.
Arguments Message {D} _.
Arguments Data {D} _.
Arguments Error {D} _.

(** What a handler leaves in the [http.ResponseWriter]. *)
Record reply (D : Type) : Type := {
  ContentType : string;
  Code : Z;
  Body : APIResponse D;
}.
Arguments ContentType {D} _.
Arguments Code {D} _.
Arguments Body {D} _.

Definition StatusOK : Z := 200.
Definition StatusInternalServerError : Z := 500.
Definition StatusServiceUnavailable : Z := 503.

Section code.
Context {R : GoRuntime}.

Definition HealthCheck (h : PrometheusClient) : reply (gmap string string) :=
  match client_Query h "up" with
  | inr err =>
      {| ContentType := "application/json";
         Code := StatusServiceUnavailable;
         Body := {| Success := false; Message := ""; Data := None;
                    Error := "Prometheus connection failed" |} |}
  | inl _ =>
      {| ContentType := "application/json";
         Code := StatusOK;
         Body := {| Success := true;
                    Message := "Service is healthy";
                    Data := Some {[ "status" := "healthy";
                                    "timestamp" := "2024/01/01 12:00:00";
                                    "version" := "1.0.0" ]};
                    Error := "" |} |}
  end.

Definition GetGPUMetrics (h : PrometheusClient) : outcome (reply (slice GPUMetrics.t)) :=
  result ← client_GetGPUMetrics h;
  match result.2 with
  | Some err =>
      Done {| ContentType := "application/json";
              Code := StatusInternalServerError;
              Body := {| Success := false; Message := ""; Data := None;
                         Error := "Failed to retrieve GPU metrics" |} |}
  | None =>
      Done {| ContentType := "application/json";
              Code := StatusOK;
              Body := {| Success := true;
                         Message := "GPU metrics retrieved successfully";
                         Data := Some result.1;
                         Error := "" |} |}
  end.

Definition GetGPUProcesses (h : PrometheusClient) : outcome (reply (slice GPUProcess.t)) :=
  result ← client_GetGPUProcesses h;
  match result.2 with
  | Some err =>
      Done {| ContentType := "application/json";
              Code := StatusInternalServerError;
              Body := {| Success := false; Message := ""; Data := None;
                         Error := "Failed to retrieve GPU processes" |} |}
  | None =>
      Done {| ContentType := "application/json";
              Code := StatusOK;
              Body := {| Success := true;
                         Message := "GPU processes retrieved successfully";
                         Data := Some result.1;
                         Error := "" |} |}
  end.

(** The client of the package prometheus behind the interface, with the
    orders in which the answers to its queries arrive. *)
Definition prometheus_client {N : Client.Network} (c : Client.t)
    (arrival_metrics arrival_processes : list (string * string)) : PrometheusClient :=
  {| client_GetGPUMetrics := Metrics.GetGPUMetrics (Client.Query c) arrival_metrics;
     client_GetGPUProcesses := Processes.GetGPUProcesses (Client.Query c) arrival_processes;
     client_Query := Client.Query c |}.
End code.
End Handlers.

(** ** The answers of a backend *)

Module FanoutSpec.
(** The [results] map that holds, under the name of every query that
    succeeded, its response. *)
Definition answers (Query : string → PrometheusResponse + error)
    (queries : gmap string string) : gmap string (option PrometheusResponse) :=
  omap (λ query, match Query query with
                 | inl resp => Some (Some resp)
                 | inr _ => None
                 end) queries.
End FanoutSpec.

(** ** Example inputs *)

Module Examples.
Definition point (labels : list (string * string)) (value : string) : Point :=
  {| Metric := list_to_map labels; Value := [AnyNumber 1640995200; AnyString value] |}.

Definition response (points : list Point) : PrometheusResponse :=
  {| Status := "success";
     Data := {| ResultType := "vector"; Result := points |};
     Error := ""; ErrorType := "" |}.

Definition gpu_labels : list (string * string) :=
  [("hostname", "node1"); ("gpu_id", "0"); ("gpu_name", "X")].

(** The scenario of the specification for the metrics correlator. *)
Definition scenario : gmap string (option PrometheusResponse) :=
  {[ "gpu_mem_free" := Some (response [point gpu_labels "8192"]);
     "gpu_mem_used" := Some (response [point gpu_labels "8192"]);
     "gpu_mem_total" := Some (response [point gpu_labels "16384"]);
     "gpu_utilization" := Some (response [point gpu_labels "75"]);
     "gpu_temperature" := Some (response [point gpu_labels "65"]);
     "cpu_utilization" := Some (response [point [("hostname", "node1")] "25.5"]);
     "memory_utilization" := Some (response [point [("hostname", "node1")] "50.0"]) ]}.

(** The points of the scenario, each with its metric type. *)
Definition scenario_points : list (string * Point) :=
  [ ("gpu_mem_free", point gpu_labels "8192");
    ("gpu_mem_used", point gpu_labels "8192");
    ("gpu_mem_total", point gpu_labels "16384");
    ("gpu_utilization", point gpu_labels "75");
    ("gpu_temperature", point gpu_labels "65");
    ("cpu_utilization", point [("hostname", "node1")] "25.5");
    ("memory_utilization", point [("hostname", "node1")] "50.0") ].

(** The value the scenario carries for each field. *)
Definition expected (f : MetricSpec.field) : Z :=
  match f with
  | MetricSpec.Free => 8192
  | MetricSpec.Used => 8192
  | MetricSpec.Total => 16384
  | MetricSpec.Utilization => 75
  | MetricSpec.Temperature => 65
  end.

Definition expected_node (f : MetricSpec.node_field) : Z :=
  match f with MetricSpec.Cpu => 25 | MetricSpec.Mem => 50 end.

(** A backend that answers every query with an empty result. *)
Definition empty_backend (query : string) : PrometheusResponse + error :=
  inl (response []).

(** A backend that is down. *)
Definition failing_backend (query : string) : PrometheusResponse + error :=
  inr (errorString "executing request: connection refused").

(** A network in which every request is answered with status 200 and a
    body that decodes to a successful, empty response. *)
Definition healthy_network : Client.Network := {|
  Client.Unix := λ _, 1700000000%Z;
  Client.QueryEscape := λ s, s;
  Client.NewRequest := λ _, None;
  Client.Do := λ _ _, inr (200%Z, inr "{}");
  Client.Unmarshal := λ _, inl (response []);
|}.

(** A network in which the backend answers every request with status 503. *)
Definition unavailable_network : Client.Network := {|
  Client.Unix := λ _, 1700000000%Z;
  Client.QueryEscape := λ s, s;
  Client.NewRequest := λ _, None;
  Client.Do := λ _ _, inr (503%Z, inr "Service Unavailable");
  Client.Unmarshal := λ _, inl (response []);
|}.

(** Every query answers with an empty result. *)
Definition empty_results : gmap string (option PrometheusResponse) :=
  {[ "gpu_mem_free" := Some (response []);
     "gpu_mem_used" := Some (response []);
     "gpu_mem_total" := Some (response []);
     "gpu_utilization" := Some (response []);
     "gpu_temperature" := Some (response []);
     "cpu_utilization" := Some (response []);
     "memory_utilization" := Some (response []) ]}.

Definition process_labels (node gpu pid : string) : list (string * string) :=
  [("hostname", node); ("gpu_id", gpu); ("pid", pid);
   ("process_name", "python"); ("user", "keito"); ("command", "python train.py")].

Definition process_results (points : list Point) : gmap string (option PrometheusResponse) :=
  {[ "gpu_memory" := Some (response points) ]}.
End Examples.

(** * Properties *)

(** ** Loops *)

Lemma for_each_total {S X} (body : S → X → outcome S) (g : S → X → S) st xs :
  (∀ st x, body st x = Done (g st x)) →
  for_each body st xs = Done (foldl g st xs).
Proof.
  intros Hbody. revert st.
  induction xs as [|x xs IH]; intros st; simpl; [done|].
  rewrite Hbody. simpl. apply IH.
Qed.

Lemma for_each_app {S X} (body : S → X → outcome S) st xs ys :
  for_each body st (xs ++ ys) = st' ← for_each body st xs; for_each body st' ys.
Proof.
  revert st. induction xs as [|x xs IH]; intros st; simpl; [done|].
  destruct (body st x) as [st'|msg]; simpl; [apply IH | done].
Qed.

Lemma for_each_ext {S X} (body body' : S → X → outcome S) st xs :
  (∀ st x, body st x = body' st x) → for_each body st xs = for_each body' st xs.
Proof.
  intros Hext. revert st. induction xs as [|x xs IH]; intros st; simpl; [done|].
  rewrite Hext. destruct (body' st x); simpl; [apply IH | done].
Qed.

Lemma for_each_ext_Forall {S X} (body body' : S → X → outcome S) st xs :
  Forall (λ x, ∀ st, body st x = body' st x) xs →
  for_each body st xs = for_each body' st xs.
Proof.
  intros Hext. revert st. induction Hext as [|x xs Hx _ IH]; intros st; simpl; [done|].
  rewrite Hx. destruct (body' st x); simpl; [apply IH | done].
Qed.

(** The nested loops visit [points_in_order]. *)
Lemma for_each_bind {S X Y} (body : S → Y → outcome S) (f : X → list Y) st xs :
  for_each (λ st x, for_each body st (f x)) st xs = for_each body st (xs ≫= f).
Proof.
  revert st. induction xs as [|x xs IH]; intros st; simpl; [done|].
  rewrite for_each_app.
  destruct (for_each body st (f x)) as [st'|msg]; simpl; [apply IH | done].
Qed.

(** ** First and last elements with a property *)

Section first_last.
Context {A : Type} (P : A → Prop).

Lemma first_where_snoc l x y : first_where P l x → first_where P (l ++ [y]) x.
Proof.
  intros (pre & post & -> & Hx & Hpre).
  exists pre, (post ++ [y]). by rewrite <- app_assoc.
Qed.

Lemma first_where_new l y : Forall (λ x, ¬ P x) l → P y → first_where P (l ++ [y]) y.
Proof. intros Hl Hy. by exists l, []. Qed.

Lemma last_where_snoc l x y : last_where P l x → ¬ P y → last_where P (l ++ [y]) x.
Proof.
  intros (pre & post & -> & Hx & Hpost) Hy.
  exists pre, (post ++ [y]). rewrite <- app_assoc. split_and!; [done..|].
  apply Forall_app. split; [done|]. by constructor.
Qed.

Lemma last_where_new l y : P y → last_where P (l ++ [y]) y.
Proof. intros Hy. by exists l, []. Qed.

Lemma last_written_none {V} (val : A → option V) l d :
  Forall (λ a, ¬ P a) l → last_written P val l d d.
Proof. intros Hl. by left. Qed.

Lemma last_written_snoc {V} (val : A → option V) l d y z :
  P y → val y = Some z → last_written P val (l ++ [y]) d z.
Proof. intros Hy Hval. right. exists y. split; [by apply last_where_new | done]. Qed.

Lemma last_written_snoc_other {V} (val : A → option V) l d x y :
  last_written P val l d x → ¬ P y → last_written P val (l ++ [y]) d x.
Proof.
  intros [[Hl ->]|(last & Hlast & Hval)] Hy.
  - left. split; [|done]. apply Forall_app. split; [done|]. by constructor.
  - right. exists last. split; [by apply last_where_snoc | done].
Qed.

Lemma first_where_elem l x : first_where P l x → x ∈ l ∧ P x.
Proof. intros (pre & post & -> & Hx & _). split; [set_solver | done]. Qed.

Lemma last_where_elem l x : last_where P l x → x ∈ l ∧ P x.
Proof. intros (pre & post & -> & Hx & _). split; [set_solver | done]. Qed.
End first_last.

(** Membership in a list that is written out. *)
Ltac solve_elem_of :=
  repeat first [ apply list_elem_of_here | apply list_elem_of_further ].

(** ** Strings *)

Lemma string_compare_refl s : String.compare s s = Eq.
Proof.
  induction s as [|c s IH]; simpl; [done|].
  unfold Ascii.compare. rewrite N.compare_refl. done.
Qed.

Lemma string_compare_lt_trans a b c :
  String.compare a b = Lt → String.compare b c = Lt → String.compare a c = Lt.
Proof.
  revert b c. induction a as [|x a IH]; intros [|y b] [|z c]; simpl; try done.
  unfold Ascii.compare.
  destruct (N.compare_spec (N_of_ascii x) (N_of_ascii y)) as [Hxy|Hxy|Hxy];
    destruct (N.compare_spec (N_of_ascii y) (N_of_ascii z)) as [Hyz|Hyz|Hyz];
    try done; intros H1 H2.
  - rewrite Hxy, Hyz, N.compare_refl. eauto.
  - rewrite Hxy. by apply N.compare_lt_iff in Hyz as ->.
  - rewrite <- Hyz. by apply N.compare_lt_iff in Hxy as ->.
  - assert (N_of_ascii x < N_of_ascii z)%N as Hxz by lia.
    by apply N.compare_lt_iff in Hxz as ->.
Qed.

Lemma string_ltb_irrefl s : String.ltb s s = false.
Proof. unfold String.ltb. by rewrite string_compare_refl. Qed.

Lemma string_ltb_lt a b : String.ltb a b = true ↔ string_lt a b.
Proof. unfold String.ltb, string_lt. destruct (String.compare a b); naive_solver. Qed.

Lemma string_ltb_trans a b c :
  String.ltb a b = true → String.ltb b c = true → String.ltb a c = true.
Proof. rewrite !string_ltb_lt. apply string_compare_lt_trans. Qed.

(** Of two different strings one is below the other. *)
Lemma string_ltb_total a b : a ≠ b → String.ltb a b = false → String.ltb b a = true.
Proof.
  unfold String.ltb. intros Hne. rewrite (String.compare_antisym b a).
  destruct (String.compare a b) eqn:Hc; simpl; try done.
  by apply String.compare_eq_iff in Hc.
Qed.

Lemma string_ltb_asym a b : String.ltb a b = true → String.ltb b a = false.
Proof.
  unfold String.ltb. rewrite (String.compare_antisym b a).
  by destruct (String.compare a b).
Qed.

(** ** The process correlator: one point *)

Section process_point.
Context {R : GoRuntime}.
Import ProcessSpec.

Lemma for_each_points (mt : string) st (l : list Point) :
  for_each (Processes.process_point mt) st l =
  for_each (λ st mp, Processes.process_point mp.1 st mp.2) st ((λ p, (mt, p)) <$> l).
Proof.
  revert st. induction l as [|p l IH]; intros st; simpl; [done|].
  destruct (Processes.process_point mt st p); simpl; [apply IH | done].
Qed.

(** The guard on the length makes the index expression safe. *)
Lemma index_guarded {A} (l : list A) :
  ¬ length l < 2 → ∃ x, l !! 1 = Some x ∧ index l 1 = Done x.
Proof.
  intros Hlen. destruct l as [|a [|b l]]; simpl in *; try lia.
  exists b. done.
Qed.

Lemma lookup_short {A} (l : list A) : length l < 2 → l !! 1 = None.
Proof. intros Hlen. apply lookup_ge_None. lia. Qed.

Lemma not_identified_iff p :
  ¬ identified p ↔ hostname p = "" ∨ gpu_id p = "" ∨ pid p = "".
Proof.
  unfold identified.
  destruct (decide (hostname p = "")), (decide (gpu_id p = "")),
    (decide (pid p = "")); tauto.
Qed.

(** What one iteration does to [processMap]. *)
Lemma process_point_spec mt st p :
  ∃ st', Processes.process_point mt st p = Done st' ∧
    Processes.processMap st' =
      match stores p with
      | Some (k, v) =>
          let proc :=
            default (new_process p (NowJST (Processes.clock st)))
                    (Processes.processMap st !! k) in
          <[k := if decide (mt = "gpu_memory")
                 then GPUProcess.set_GPUMemory (int_of_float64 v) proc
                 else proc]> (Processes.processMap st)
      | None => Processes.processMap st
      end.
Proof.
  unfold Processes.process_point, stores, parsed_value.
  fold (hostname p) (gpu_id p) (pid p).
  destruct (decide (hostname p = "" ∨ gpu_id p = "" ∨ pid p = "")) as [Hid|Hid].
  { exists st. split; [done|].
    apply not_identified_iff in Hid. by rewrite decide_False. }
  destruct (decide (identified p)) as [_|Hn]; [|by apply not_identified_iff in Hn].
  fold (key_of p).
  destruct (Processes.processMap st !! key_of p) as [proc|] eqn:Hlook; simpl.
  - destruct (decide (length (Value p) < 2)) as [Hlen|Hlen].
    { eexists. split; [done|]. by rewrite lookup_short. }
    destruct (index_guarded _ Hlen) as (v & -> & ->). simpl.
    destruct (as_string v) as [s|]; simpl; [|by eexists].
    destruct (ParseFloat s) as [value|]; simpl; [|by eexists].
    eexists. split; [done|]. simpl. rewrite Hlook. done.
  - destruct (decide (length (Value p) < 2)) as [Hlen|Hlen].
    { eexists. split; [done|]. by rewrite lookup_short. }
    destruct (index_guarded _ Hlen) as (v & -> & ->). simpl.
    destruct (as_string v) as [s|]; simpl; [|by eexists].
    destruct (ParseFloat s) as [value|]; simpl; [|by eexists].
    eexists. split; [done|]. simpl. rewrite Hlook. done.
Qed.

Lemma process_point_total mt st p :
  Processes.process_point mt st p = Done (step st (mt, p)).
Proof.
  unfold step. simpl.
  destruct (process_point_spec mt st p) as (st' & -> & _). done.
Qed.

Lemma step_processMap st mp :
  Processes.processMap (step st mp) =
    match stores mp.2 with
    | Some (k, v) =>
        let proc :=
          default (new_process mp.2 (NowJST (Processes.clock st)))
                  (Processes.processMap st !! k) in
        <[k := if decide (mp.1 = "gpu_memory")
               then GPUProcess.set_GPUMemory (int_of_float64 v) proc
               else proc]> (Processes.processMap st)
    | None => Processes.processMap st
    end.
Proof.
  unfold step.
  destruct (process_point_spec mp.1 st mp.2) as (st' & -> & Hst'). done.
Qed.

(** A point that lacks an identity label changes nothing at all. *)
Lemma process_point_unidentified mt st p :
  ¬ identified p → Processes.process_point mt st p = Done st.
Proof.
  intros Hid%not_identified_iff. unfold Processes.process_point.
  fold (hostname p) (gpu_id p) (pid p). by rewrite decide_True.
Qed.

Lemma process_response_points st entry :
  Processes.process_response st entry =
  for_each (λ st mp, Processes.process_point mp.1 st mp.2) st (points_of entry).
Proof.
  unfold Processes.process_response, points_of.
  destruct (entry.2) as [response|]; [apply for_each_points | done].
Qed.

(** The two nested loops are a fold of [step] over the points. *)
Lemma process_loops (entries : list (string * option PrometheusResponse)) st :
  for_each Processes.process_response st entries =
  Done (foldl step st (entries ≫= points_of)).
Proof.
  rewrite (for_each_ext _ _ _ _ process_response_points).
  rewrite for_each_bind. apply for_each_total.
  intros st' [mt p]. apply process_point_total.
Qed.
End process_point.

(** ** The reference runtime keeps the promises of the language *)

Lemma swo_asym {A} (less : A → A → bool) a b :
  strict_weak_order less → less a b = true → less b a = false.
Proof.
  intros Hswo Hab. destruct (less b a) eqn:Hba; [|done].
  pose proof (swo_trans less Hswo a b a Hab Hba) as Haa.
  by rewrite (swo_irrefl less Hswo) in Haa.
Qed.

Lemma reference_laws : GoRuntimeLaws Reference.runtime.
Proof.
  split.
  - intros A m. done.
  - intros A less l. apply merge_sort_Permutation.
  - intros A less l Hswo. simpl. unfold Reference.sort.
    assert (Total (Reference.not_after less)) as Htotal.
    { intros a b. unfold Reference.not_after.
      destruct (less b a) eqn:Hba; [right | by left].
      by apply swo_asym. }
    apply (Sorted_merge_sort (Reference.not_after less)).
Qed.

(** ** C1: the order of the processes *)

Section process_order.
Context {R : GoRuntime}.
Import ProcessSpec.

Lemma less_strict_weak_order : strict_weak_order Processes.less.
Proof.
  split.
  - intros a. unfold Processes.less.
    rewrite String.eqb_refl, Z.eqb_refl. simpl. apply Z.ltb_irrefl.
  - intros [na ga pa ? ? ? ? ?] [nb gb pb ? ? ? ? ?] [nc gc pc ? ? ? ? ?].
    unfold Processes.less. simpl.
    destruct (String.eqb_spec na nb) as [Hab|Hab];
      destruct (String.eqb_spec nb nc) as [Hbc|Hbc];
      destruct (String.eqb_spec na nc) as [Hac|Hac];
      subst; simpl; try congruence.
    + destruct (Z.eqb_spec ga gb), (Z.eqb_spec gb gc), (Z.eqb_spec ga gc);
        simpl; rewrite ?Z.ltb_lt; lia.
    + intros H1 H2. by rewrite (string_ltb_asym _ _ H1) in H2.
    + apply string_ltb_trans.
  - intros [na ga pa ? ? ? ? ?] [nb gb pb ? ? ? ? ?] [nc gc pc ? ? ? ? ?].
    unfold Processes.less. simpl.
    destruct (String.eqb_spec na nb) as [Hab|Hab];
      destruct (String.eqb_spec nb nc) as [Hbc|Hbc];
      destruct (String.eqb_spec na nc) as [Hac|Hac];
      subst; simpl; try congruence.
    + destruct (Z.eqb_spec ga gb), (Z.eqb_spec gb gc), (Z.eqb_spec ga gc);
        simpl; rewrite ?Z.ltb_ge; lia.
    + intros H1 H2. apply (string_ltb_total _ _ Hab) in H1. congruence.
    + intros H1 H2. apply (string_ltb_total _ _ Hab) in H1.
      apply (string_ltb_total _ _ Hbc) in H2.
      apply string_ltb_asym. by apply (string_ltb_trans _ _ _ H2).
Qed.

(** [less b a] is false exactly when the key of [a] is not above that of [b]. *)
Lemma not_less_key_le a b : Processes.less b a = false → key_le a b.
Proof.
  unfold Processes.less, key_le.
  destruct (String.eqb_spec (GPUProcess.NodeName b) (GPUProcess.NodeName a)) as [Hn|Hn];
    simpl.
  - destruct (Z.eqb_spec (GPUProcess.GPUIndex b) (GPUProcess.GPUIndex a)); simpl;
      intros Hlt%Z.ltb_ge; right; (split; [done|]); lia.
  - intros Hlt. left. apply string_ltb_lt.
    apply string_ltb_total; [done|]. done.
Qed.

Lemma Sorted_adjacent {A} (Rel : relation A) (l : list A) i a b :
  Sorted Rel l → l !! i = Some a → l !! S i = Some b → Rel a b.
Proof.
  intros Hs. revert i. induction Hs as [|x l Hs IH Hhd]; intros i Ha Hb; [done|].
  destruct i as [|i]; simpl in *.
  - injection Ha as ->. destruct Hhd as [|y l Hxy]; [done|].
    simpl in Hb. by injection Hb as ->.
  - by apply (IH i).
Qed.

Lemma elems_foldl_append {A B} (f : B → A) (s : slice A) (l : list B) :
  elems (foldl (λ s kv, append s (f kv)) s l) = elems s ++ (f <$> l).
Proof.
  revert s. induction l as [|x l IH]; intros s; simpl.
  - by rewrite app_nil_r.
  - rewrite IH. simpl. by rewrite <- app_assoc.
Qed.

(** parseGPUProcesses returns, without an error, a slice that is not nil. *)
Lemma parseGPUProcesses_returns results :
  Processes.parseGPUProcesses results =
  Done (mk_slice (output (Processes.processMap (run (points_in_order results)))), None).
Proof.
  unfold Processes.parseGPUProcesses, output.
  rewrite process_loops. simpl.
  fold (points_in_order results). fold (run (points_in_order results)).
  destruct (decide (size _ = 0)); [done|].
  by rewrite elems_foldl_append.
Qed.

Lemma output_sorted `{!GoRuntimeLaws R} processMap :
  Sorted (λ a b, Processes.less b a = false) (output processMap).
Proof.
  unfold output. destruct (decide _); [constructor|].
  apply sort_Slice_sorted, less_strict_weak_order.
Qed.

(** The output holds exactly the records of the map. *)
Lemma output_perm `{!GoRuntimeLaws R} processMap :
  output processMap ≡ₚ (map_to_list processMap).*2.
Proof.
  unfold output. destruct (decide (size processMap = 0)) as [Hz|Hz].
  - apply map_size_empty_iff in Hz as ->. by rewrite map_to_list_empty.
  - rewrite sort_Slice_perm. by rewrite range_order_perm.
Qed.
End process_order.

(** C1. For every input, parseGPUProcesses returns a slice in which each
    record and its successor are in ascending order of (node name,
    compared lexicographically; GPU index; pid); so does GetGPUProcesses,
    for every backend and every order of arrival of the answers. *)
Theorem processes_sorted {R : GoRuntime} `{!GoRuntimeLaws R}
    (results : gmap string (option PrometheusResponse))
    (Query : string → PrometheusResponse + error) (arrival : list (string * string)) :
  (∃ out, Processes.parseGPUProcesses results = Done (mk_slice out, None) ∧
          ProcessSpec.ascending out) ∧
  (∃ out err, Processes.GetGPUProcesses Query arrival = Done (out, err) ∧
              ProcessSpec.ascending (elems out)).
Proof.
  assert (∀ results, ∃ out,
            Processes.parseGPUProcesses results = Done (mk_slice out, None) ∧
            ProcessSpec.ascending out) as Hparse.
  { intros results'. eexists. split; [apply parseGPUProcesses_returns|].
    intros i a b Ha Hb. apply not_less_key_le.
    eapply (Sorted_adjacent (λ a b, Processes.less b a = false)); [|done..].
    apply output_sorted. }
  split; [apply Hparse|].
  unfold Processes.GetGPUProcesses.
  destruct (Fanout.first_error _) as [err|].
  - exists nil_slice, (Some err). split; [done|]. by intros i a b Ha.
  - destruct (Hparse (Fanout.collect Query arrival)) as (out & -> & Hout).
    by exists (mk_slice out), None.
Qed.

(** ** The process correlator: the map after all points *)

Section process_run.
Context {R : GoRuntime}.
Import ProcessSpec.

Lemma run_snoc pts mp : run (pts ++ [mp]) = step (run pts) mp.
Proof. unfold run. by rewrite foldl_app. Qed.

Lemma stores_at_key k mp kv : stores mp.2 = Some kv → stores_at k mp ↔ kv.1 = k.
Proof.
  intros Hst. unfold stores_at. rewrite Hst. destruct kv as [k' v]. simpl.
  split; [by intros (? & [= -> _]) | intros ->; by eexists].
Qed.

Lemma not_stores_at k mp : stores mp.2 = None → ¬ stores_at k mp.
Proof. intros Hst (v & Hv). congruence. Qed.

(** What [processMap] holds under a key: nothing unless a point stored
    there; otherwise the record of the first such point, with the
    memory written by the last. *)
Lemma run_lookup pts k :
  match Processes.processMap (run pts) !! k with
  | None => Forall (λ mp, ¬ stores_at k mp) pts
  | Some r =>
      ∃ first last v now,
        first_where (stores_at k) pts first ∧
        last_where (stores_at k) pts last ∧
        stores last.2 = Some (k, v) ∧
        GPUProcess.set_GPUMemory 0 r = new_process first.2 now ∧
        (last.1 = "gpu_memory" → GPUProcess.GPUMemory r = int_of_float64 v)
  end.
Proof.
  induction pts as [|mp pts IH] using rev_ind.
  { unfold run. simpl. rewrite lookup_empty. constructor. }
  rewrite run_snoc, step_processMap.
  destruct (stores mp.2) as [[k' v']|] eqn:Hst.
  - simpl. destruct (decide (k' = k)) as [->|Hk].
    + rewrite lookup_insert_eq.
      assert (stores_at k mp) as Hat by (by exists v').
      destruct (Processes.processMap (run pts) !! k) as [r0|]; simpl.
      * destruct IH as (first & last & v & now & Hfirst & _ & _ & Hnew & _).
        exists first, mp, v', now. split_and!.
        -- by apply first_where_snoc.
        -- by apply last_where_new.
        -- done.
        -- rewrite <- Hnew. by destruct (decide _), r0.
        -- intros Hmt. by rewrite decide_True.
      * exists mp, mp, v', (NowJST (Processes.clock (run pts))). split_and!.
        -- by apply first_where_new.
        -- by apply last_where_new.
        -- done.
        -- by destruct (decide _).
        -- intros Hmt. by rewrite decide_True.
    + rewrite lookup_insert_ne by done.
      assert (¬ stores_at k mp) as Hat.
      { rewrite (stores_at_key _ _ _ Hst). done. }
      destruct (Processes.processMap (run pts) !! k) as [r0|].
      * destruct IH as (first & last & v & now & Hfirst & Hlast & Hv & Hnew & Hmem).
        exists first, last, v, now. split_and!; try done.
        -- by apply first_where_snoc.
        -- by apply last_where_snoc.
      * apply Forall_app. split; [done|]. by constructor.
  - pose proof (not_stores_at k mp Hst) as Hat.
    destruct (Processes.processMap (run pts) !! k) as [r0|].
    + destruct IH as (first & last & v & now & Hfirst & Hlast & Hv & Hnew & Hmem).
      exists first, last, v, now. split_and!; try done.
      * by apply first_where_snoc.
      * by apply last_where_snoc.
    + apply Forall_app. split; [done|]. by constructor.
Qed.

(** Every record of the output sits under some key of the map. *)
Lemma output_elem `{!GoRuntimeLaws R} processMap r :
  r ∈ output processMap ↔ ∃ k, processMap !! k = Some r.
Proof.
  rewrite output_perm, list_elem_of_fmap. split.
  - intros ([k r'] & -> & Hin%elem_of_map_to_list). by exists k.
  - intros (k & Hk). exists (k, r). split; [done|]. by apply elem_of_map_to_list.
Qed.

(** The metric type of every point is a key of [results]. *)
Lemma points_in_order_type `{!GoRuntimeLaws R} results mp :
  mp ∈ points_in_order results → is_Some (results !! mp.1).
Proof.
  unfold points_in_order. rewrite list_elem_of_bind.
  intros ([name resp] & Hin & Hentry).
  rewrite range_order_perm in Hentry. apply elem_of_map_to_list in Hentry.
  unfold points_of in Hin. simpl in Hin.
  destruct resp as [resp|]; [|by apply elem_of_nil in Hin].
  apply list_elem_of_fmap in Hin as (p & -> & _). simpl. by rewrite Hentry.
Qed.
End process_run.

(** ** The metrics correlator: one point *)

Section metrics_point.
Context {R : GoRuntime}.
Import MetricSpec.

Lemma not_node_scoped mt :
  ¬ (mt = "cpu_utilization" ∨ mt = "memory_utilization") ↔ ¬ node_scoped mt.
Proof. done. Qed.

(** What one iteration does to the two maps. *)
Lemma metrics_point_spec mt st p :
  ∃ st', Metrics.metrics_point mt st p = Done st' ∧
    Metrics.metricsMap st' =
      match stores (mt, p) with
      | Some (k, v) =>
          <[k := Metrics.set_value mt (int_of_float64 v)
                   (default (new_entry p (NowJST (Metrics.clock st)))
                            (Metrics.metricsMap st !! k))]> (Metrics.metricsMap st)
      | None => Metrics.metricsMap st
      end ∧
    Metrics.nodeUtilization st' =
      match node_stores (mt, p) with
      | Some (n, v) =>
          <[n := set_util mt v (default Metrics.zero_util (Metrics.nodeUtilization st !! n))]>
            (Metrics.nodeUtilization st)
      | None => Metrics.nodeUtilization st
      end.
Proof.
  unfold Metrics.metrics_point, stores, node_stores, parsed_value. simpl.
  fold (hostname p) (gpu_id p) (gpu_name p) (node_scoped mt).
  destruct (decide (hostname p ≠ "" ∧ ¬ node_scoped mt ∧ gpu_id p ≠ "")) as [Hs|Hs];
    destruct (decide (hostname p ≠ "" ∧ node_scoped mt)) as [Hn|Hn];
    try (exfalso; tauto);
    (destruct (decide (hostname p = "")) as [Hh|Hh];
      [try (exfalso; tauto); by exists st|]);
    (destruct (decide (length (Value p) < 2)) as [Hlen|Hlen];
      [exists st; by rewrite ?lookup_short by done|]);
    destruct (index_guarded _ Hlen) as (v & Hv1 & Hv2); rewrite ?Hv1, Hv2; simpl;
    (destruct (as_string v) as [s|]; simpl; [|by exists st]);
    (destruct (ParseFloat s) as [value|]; simpl; [|by exists st]);
    (destruct (decide (node_scoped mt)) as [Hm|Hm]; [try (exfalso; tauto)|]).
  - destruct (decide (gpu_id p = "")) as [Hg|Hg]; [exfalso; tauto|].
    fold (key_of p).
    destruct (Metrics.metricsMap st !! key_of p) as [entry|] eqn:Hlook;
      eexists; (split; [done|]); simpl; done.
  - by eexists.
  - exfalso; tauto.
  - destruct (decide (gpu_id p = "")) as [Hg|Hg]; [by exists st | exfalso; tauto].
Qed.

Lemma metrics_point_total mt st p :
  Metrics.metrics_point mt st p = Done (step st (mt, p)).
Proof.
  unfold step. simpl.
  destruct (metrics_point_spec mt st p) as (st' & -> & _). done.
Qed.

Lemma step_metricsMap st mp :
  Metrics.metricsMap (step st mp) =
    match stores mp with
    | Some (k, v) =>
        <[k := Metrics.set_value mp.1 (int_of_float64 v)
                 (default (new_entry mp.2 (NowJST (Metrics.clock st)))
                          (Metrics.metricsMap st !! k))]> (Metrics.metricsMap st)
    | None => Metrics.metricsMap st
    end.
Proof.
  destruct mp as [mt p]. unfold step. cbn [fst snd].
  destruct (metrics_point_spec mt st p) as (st' & -> & -> & _). done.
Qed.

Lemma step_nodeUtilization st mp :
  Metrics.nodeUtilization (step st mp) =
    match node_stores mp with
    | Some (n, v) =>
        <[n := set_util mp.1 v (default Metrics.zero_util (Metrics.nodeUtilization st !! n))]>
          (Metrics.nodeUtilization st)
    | None => Metrics.nodeUtilization st
    end.
Proof.
  destruct mp as [mt p]. unfold step. cbn [fst snd].
  destruct (metrics_point_spec mt st p) as (st' & -> & _ & ->). done.
Qed.

Lemma for_each_metric_points (mt : string) st (l : list Point) :
  for_each (Metrics.metrics_point mt) st l =
  for_each (λ st mp, Metrics.metrics_point mp.1 st mp.2) st ((λ p, (mt, p)) <$> l).
Proof.
  revert st. induction l as [|p l IH]; intros st; simpl; [done|].
  destruct (Metrics.metrics_point mt st p); simpl; [apply IH | done].
Qed.

(** The two nested loops are a fold of [step] over the points, when no
    response is nil. *)
Lemma metrics_loops (entries : list (string * option PrometheusResponse)) st :
  Forall (λ entry, entry.2 ≠ None) entries →
  for_each Metrics.metrics_response st entries =
  Done (foldl step st (entries ≫= points_of)).
Proof.
  intros Hnn.
  rewrite (for_each_ext_Forall _
             (λ st entry, for_each (λ st mp, Metrics.metrics_point mp.1 st mp.2)
                            st (points_of entry))).
  - rewrite for_each_bind. apply for_each_total.
    intros st' [mt p]. apply metrics_point_total.
  - eapply Forall_impl; [exact Hnn|].
    intros [mt resp] Hresp st'. unfold Metrics.metrics_response, points_of.
    simpl in *. destruct resp as [resp|]; [apply for_each_metric_points | done].
Qed.
End metrics_point.

(** ** Points without a usable value *)

Section no_value.
Context {R : GoRuntime}.

Lemma malformed_no_value p : malformed_value p → parsed_value p = None.
Proof.
  unfold parsed_value. intros [Hlen|(v & -> & Hv)].
  - by rewrite lookup_short.
  - simpl. by rewrite Hv.
Qed.

Lemma unparseable_no_value p s :
  Value p !! 1 = Some (AnyString s) → ParseFloat s = None → parsed_value p = None.
Proof. unfold parsed_value. intros -> Hs. done. Qed.

(** The metrics correlator leaves the whole state as it is. *)
Lemma metrics_point_no_value mt st p :
  parsed_value p = None → Metrics.metrics_point mt st p = Done st.
Proof.
  unfold parsed_value, Metrics.metrics_point. intros Hv.
  destruct (decide (label (Metric p) "hostname" = "")); [done|].
  destruct (decide (length (Value p) < 2)) as [Hlen|Hlen]; [done|].
  destruct (index_guarded _ Hlen) as (v & Hv1 & ->). rewrite Hv1 in Hv.
  simpl in *. destruct (as_string v) as [s|]; [|done].
  simpl in Hv. by rewrite Hv.
Qed.

(** The process correlator leaves [processMap] as it is. *)
Lemma process_point_no_value mt st p :
  parsed_value p = None →
  ∃ st', Processes.process_point mt st p = Done st' ∧
         Processes.processMap st' = Processes.processMap st.
Proof.
  intros Hv. destruct (process_point_spec mt st p) as (st' & Hst' & Hmap).
  exists st'. split; [done|]. rewrite Hmap.
  unfold ProcessSpec.stores. rewrite Hv.
  by destruct (decide (ProcessSpec.identified p)).
Qed.
End no_value.

(** C9. A point whose value pair has fewer than two elements, or whose
    second element is not a string, is processed without a panic and
    without an effect: the metrics correlator keeps its whole state (the
    record map and the side table), the process correlator its record
    map.  For no point at all does either loop body panic, so the index
    expression is never out of range. *)
Theorem malformed_value_is_skipped {R : GoRuntime} (p : Point) :
  malformed_value p →
  (∀ mt st, Metrics.metrics_point mt st p = Done st) ∧
  (∀ mt st, ∃ st', Processes.process_point mt st p = Done st' ∧
                   Processes.processMap st' = Processes.processMap st) ∧
  (∀ mt st q, ∃ st', Metrics.metrics_point mt st q = Done st') ∧
  (∀ mt st q, ∃ st', Processes.process_point mt st q = Done st').
Proof.
  intros Hp. apply (malformed_no_value (R := R)) in Hp. split_and!.
  - intros mt st. by apply metrics_point_no_value.
  - intros mt st. by apply process_point_no_value.
  - intros mt st q. eexists. apply metrics_point_total.
  - intros mt st q. eexists. apply process_point_total.
Qed.

(** ** C5: points without an identity label *)

Lemma for_each_filter_skip {S X} (P : X → Prop) `{!∀ x, Decision (P x)}
    (body : S → X → outcome S) st xs :
  (∀ st x, ¬ P x → body st x = Done st) →
  for_each body st (filter P xs) = for_each body st xs.
Proof.
  intros Hskip. revert st. induction xs as [|x xs IH]; intros st; [done|].
  rewrite filter_cons. destruct (decide (P x)) as [Hx|Hx]; simpl.
  - destruct (body st x); simpl; [apply IH | done].
  - rewrite Hskip by done. simpl. apply IH.
Qed.

Section unidentified.
Context {R : GoRuntime}.
Import ProcessSpec.

Lemma process_response_drop st entry :
  Processes.process_response st (drop_unidentified entry) =
  Processes.process_response st entry.
Proof.
  destruct entry as [mt [resp|]]; [|done].
  unfold Processes.process_response, drop_unidentified. simpl.
  apply for_each_filter_skip. intros st' p. apply process_point_unidentified.
Qed.

Lemma process_entries_drop st entries :
  for_each Processes.process_response st (drop_unidentified <$> entries) =
  for_each Processes.process_response st entries.
Proof.
  revert st. induction entries as [|entry entries IH]; intros st; simpl; [done|].
  rewrite process_response_drop.
  destruct (Processes.process_response st entry); simpl; [apply IH | done].
Qed.

Lemma range_order_singleton `{!GoRuntimeLaws R} {A} (k : string) (x : A) :
  range_order ({[ k := x ]} : gmap string A) = [(k, x)].
Proof.
  apply Permutation_singleton_r.
  by rewrite range_order_perm, map_to_list_singleton.
Qed.
End unidentified.

(** What [strconv.Atoi] returns beside an error: 0, or the bound of the
    64-bit range the number lies beyond. *)
Lemma Atoi_digits_error (neg : bool) (digits : string) (n : Z) :
  match digits with
  | EmptyString => (0%Z, true)
  | _ =>
      match parse_uint10 0 digits with
      | ScanSyntax => (0%Z, true)
      | ScanRange => (if neg then minInt64 else maxInt64, true)
      | ScanOk un =>
          if neg then
            if decide (- minInt64 < un)%Z then (minInt64, true) else ((- un)%Z, false)
          else
            if decide (maxInt64 < un)%Z then (maxInt64, true) else (un, false)
      end
  end = (n, true) →
  n = 0%Z ∨ n = maxInt64 ∨ n = minInt64.
Proof.
  destruct digits as [|c digits]; [intros [= <-]; by left|].
  destruct (parse_uint10 0 (String c digits)) as [un| |].
  - destruct neg.
    + destruct (decide (- minInt64 < un)%Z); intros [= <-]. by right; right.
    + destruct (decide (maxInt64 < un)%Z); intros [= <-]. by right; left.
  - intros [= <-]. by left.
  - destruct neg; intros [= <-]; [by right; right | by right; left].
Qed.

Lemma Atoi_error_value (s : string) :
  (Atoi s).2 = true → (Atoi s).1 = 0%Z ∨ (Atoi s).1 = maxInt64 ∨ (Atoi s).1 = minInt64.
Proof.
  destruct (Atoi s) as [n e] eqn:Heq. simpl. intros ->. revert Heq.
  destruct s as [|[b0 b1 b2 b3 b4 b5 b6 b7] s']; [intros [= <-]; by left|].
  destruct b0, b1, b2, b3, b4, b5, b6, b7;
    match goal with
    | |- Atoi ?l = _ → _ =>
        first [ exact (Atoi_digits_error false l n)
              | exact (Atoi_digits_error false s' n)
              | exact (Atoi_digits_error true s' n) ]
    end.
Qed.

(** C5, as the code has it.  A point whose hostname, gpu_id or pid label
    is empty is skipped entirely: the state after it is the state before
    it, so the loops, and the call on the one query of GetGPUProcesses,
    give the same result with and without such points.  A point with the
    three labels and a value that parses is never skipped, whether or not
    gpu_id and pid are integers: it stores a record under its key, and
    when the key is new that record carries the hostname and, as GPU
    index and pid, the values Atoi returns for the two labels, its error
    discarded.  So for every such point the call emits a record, created
    by the first point of its key with the values Atoi returns for that
    point's labels.  Beside an error Atoi returns 0, or for a number out
    of the 64-bit range the nearest bound. *)
Theorem empty_identity_label_is_skipped {R : GoRuntime} `{!GoRuntimeLaws R} :
  (∀ mt st p, ¬ ProcessSpec.identified p → Processes.process_point mt st p = Done st) ∧
  (∀ st entries,
     for_each Processes.process_response st (ProcessSpec.drop_unidentified <$> entries) =
     for_each Processes.process_response st entries) ∧
  (∀ response,
     Processes.parseGPUProcesses {[ "gpu_memory" := Some (ProcessSpec.keep_identified response) ]} =
     Processes.parseGPUProcesses {[ "gpu_memory" := Some response ]}) ∧
  (∀ mt st p v, ProcessSpec.identified p → parsed_value p = Some v →
     ∃ st' r, Processes.process_point mt st p = Done st' ∧
              Processes.processMap st' !! ProcessSpec.key_of p = Some r ∧
              (Processes.processMap st !! ProcessSpec.key_of p = None →
               GPUProcess.NodeName r = ProcessSpec.hostname p ∧
               GPUProcess.GPUIndex r = (Atoi (ProcessSpec.gpu_id p)).1 ∧
               GPUProcess.PID r = (Atoi (ProcessSpec.pid p)).1)) ∧
  (∀ results mt p v,
     (mt, p) ∈ points_in_order results →
     ProcessSpec.identified p → parsed_value p = Some v →
     ∃ out r first,
       Processes.parseGPUProcesses results = Done (mk_slice out, None) ∧
       r ∈ out ∧
       first_where (ProcessSpec.stores_at (ProcessSpec.key_of p))
         (points_in_order results) first ∧
       ProcessSpec.key_of first.2 = ProcessSpec.key_of p ∧
       GPUProcess.NodeName r = ProcessSpec.hostname first.2 ∧
       GPUProcess.GPUIndex r = (Atoi (ProcessSpec.gpu_id first.2)).1 ∧
       GPUProcess.PID r = (Atoi (ProcessSpec.pid first.2)).1) ∧
  (∀ s, (Atoi s).2 = true →
     (Atoi s).1 = 0%Z ∨ (Atoi s).1 = maxInt64 ∨ (Atoi s).1 = minInt64).
Proof.
  split_and!.
  - intros mt st p. apply process_point_unidentified.
  - apply process_entries_drop.
  - intros response. unfold Processes.parseGPUProcesses.
    rewrite !range_order_singleton.
    by rewrite <- (process_entries_drop _ [("gpu_memory", Some response)]).
  - intros mt st p v Hid Hv.
    destruct (process_point_spec mt st p) as (st' & Hst' & Hmap).
    unfold ProcessSpec.stores in Hmap. rewrite decide_True, Hv in Hmap by done.
    simpl in Hmap. eexists st', _. split; [done|]. split.
    + rewrite Hmap. apply lookup_insert_eq.
    + intros ->. simpl. by destruct (decide (mt = "gpu_memory")).
  - intros results mt p v Hin Hid Hv.
    assert (ProcessSpec.stores p = Some (ProcessSpec.key_of p, v)) as Hst.
    { unfold ProcessSpec.stores. by rewrite decide_True, Hv. }
    pose proof (run_lookup (points_in_order results) (ProcessSpec.key_of p)) as Hinv.
    destruct (Processes.processMap (ProcessSpec.run (points_in_order results))
                !! ProcessSpec.key_of p) as [r|] eqn:Hk.
    + destruct Hinv as (first & last & v' & now & Hfirst & _ & _ & Hnew & _).
      eexists _, r, first. split; [apply parseGPUProcesses_returns|].
      split; [apply output_elem; by eexists|]. split; [done|].
      split_and!.
      * destruct (first_where_elem _ _ _ Hfirst) as [_ (w & Hw)].
        unfold ProcessSpec.stores in Hw.
        destruct (decide (ProcessSpec.identified first.2)); [|done].
        destruct (parsed_value first.2); simpl in Hw; congruence.
      * by apply (f_equal GPUProcess.NodeName) in Hnew.
      * by apply (f_equal GPUProcess.GPUIndex) in Hnew.
      * by apply (f_equal GPUProcess.PID) in Hnew.
    + exfalso. rewrite Forall_forall in Hinv. apply (Hinv (mt, p) Hin).
      by exists v.
  - apply Atoi_error_value.
Qed.

(** C8. On the results of GetGPUProcesses (the one metric type
    gpu_memory) every emitted record sits under a key at which some point
    stored, that is, a point with its three identity labels and a value
    that parses.  Its memory is the conversion of the value of the last
    such point, and its process name, user and command are the labels of
    the first such point. *)
Theorem process_record_origin {R : GoRuntime} `{!GoRuntimeLaws R}
    (results : gmap string (option PrometheusResponse)) :
  (∀ name, is_Some (results !! name) → name = "gpu_memory") →
  ∃ out, Processes.parseGPUProcesses results = Done (mk_slice out, None) ∧
    ∀ r, r ∈ out →
      ∃ k first last v,
        first_where (ProcessSpec.stores_at k) (points_in_order results) first ∧
        last_where (ProcessSpec.stores_at k) (points_in_order results) last ∧
        parsed_value last.2 = Some v ∧
        GPUProcess.GPUMemory r = int_of_float64 v ∧
        GPUProcess.ProcessName r = label (Metric first.2) "process_name" ∧
        GPUProcess.User r = label (Metric first.2) "user" ∧
        GPUProcess.Command r = label (Metric first.2) "command".
Proof.
  intros Htypes. eexists. split; [apply parseGPUProcesses_returns|].
  intros r (k & Hk)%output_elem.
  pose proof (run_lookup (points_in_order results) k) as Hinv.
  rewrite Hk in Hinv.
  destruct Hinv as (first & last & v & now & Hfirst & Hlast & Hv & Hnew & Hmem).
  exists k, first, last, v. split_and!; try done.
  - unfold ProcessSpec.stores in Hv. destruct (decide _); [|done].
    destruct (parsed_value last.2); simpl in Hv; congruence.
  - apply Hmem, Htypes. apply points_in_order_type.
    by apply (last_where_elem _ _ _ Hlast).
  - by apply (f_equal GPUProcess.ProcessName) in Hnew.
  - by apply (f_equal GPUProcess.User) in Hnew.
  - by apply (f_equal GPUProcess.Command) in Hnew.
Qed.

(** ** The metrics correlator: the maps after all points *)

Section metrics_run.
Context {R : GoRuntime}.
Import MetricSpec.

Lemma metrics_run_snoc pts mp : run (pts ++ [mp]) = step (run pts) mp.
Proof. unfold run. by rewrite foldl_app. Qed.

Lemma field_get_set_value f mt z r :
  field_get f (Metrics.set_value mt z r) =
  if decide (mt = field_metric f) then z else field_get f r.
Proof.
  unfold Metrics.set_value.
  destruct f; simpl; repeat case_decide; subst; simpl; congruence.
Qed.

(** [set_value] touches none of the other fields. *)
Lemma set_value_frame mt z r :
  GPUMetrics.NodeName (Metrics.set_value mt z r) = GPUMetrics.NodeName r ∧
  GPUMetrics.GPUIndex (Metrics.set_value mt z r) = GPUMetrics.GPUIndex r ∧
  GPUMetrics.GPUName (Metrics.set_value mt z r) = GPUMetrics.GPUName r ∧
  GPUMetrics.CPUUtilization (Metrics.set_value mt z r) = GPUMetrics.CPUUtilization r ∧
  GPUMetrics.MemoryUtilization (Metrics.set_value mt z r) = GPUMetrics.MemoryUtilization r ∧
  GPUMetrics.Timestamp (Metrics.set_value mt z r) = GPUMetrics.Timestamp r.
Proof. unfold Metrics.set_value. repeat case_decide; done. Qed.

Lemma metric_stores_at_key k mp kv : stores mp = Some kv → stores_at k mp ↔ kv.1 = k.
Proof.
  intros Hst. unfold stores_at. rewrite Hst. destruct kv as [k' v]. simpl.
  split; [by intros (? & [= -> _]) | intros ->; by eexists].
Qed.

Lemma writes_stores_at f k mp : writes f k mp → stores_at k mp.
Proof. by intros [_ ?]. Qed.

Lemma stems_from_set_value mt z r p :
  stems_from r p → stems_from (Metrics.set_value mt z r) p.
Proof.
  unfold stems_from.
  destruct (set_value_frame mt z r) as (-> & -> & -> & -> & -> & _). done.
Qed.

(** What [metricsMap] holds under a key after the first pass: nothing
    unless a point stored there; otherwise the record created by the
    first such point, each field holding what the last point that
    wrote it carried. *)
Lemma metrics_run_lookup pts k :
  match Metrics.metricsMap (run pts) !! k with
  | None => Forall (λ mp, ¬ stores_at k mp) pts
  | Some r =>
      (∃ first, first_where (stores_at k) pts first ∧ stems_from r first.2) ∧
      ∀ f, last_written (writes f k) written_value pts 0%Z (field_get f r)
  end.
Proof.
  induction pts as [|mp pts IH] using rev_ind.
  { unfold run. simpl. rewrite lookup_empty. constructor. }
  rewrite metrics_run_snoc, step_metricsMap.
  destruct (stores mp) as [[k' v']|] eqn:Hst.
  - destruct (decide (k' = k)) as [->|Hk].
    + rewrite lookup_insert_eq.
      assert (stores_at k mp) as Hat by (by exists v').
      assert (written_value mp = Some (int_of_float64 v')) as Hval.
      { unfold written_value. by rewrite Hst. }
      destruct (Metrics.metricsMap (run pts) !! k) as [r0|]; simpl.
      * destruct IH as [(first & Hfirst & Hstems) Hfields]. split.
        -- exists first. split; [by apply first_where_snoc|].
           by apply stems_from_set_value.
        -- intros f. rewrite field_get_set_value.
           destruct (decide (mp.1 = field_metric f)) as [Hf|Hf].
           ++ by apply last_written_snoc.
           ++ apply last_written_snoc_other; [done|]. by intros [? _].
      * split.
        -- exists mp. split; [by apply first_where_new|].
           by apply stems_from_set_value.
        -- intros f. rewrite field_get_set_value.
           destruct (decide (mp.1 = field_metric f)) as [Hf|Hf].
           ++ by apply last_written_snoc.
           ++ replace (field_get f (new_entry mp.2 _)) with 0%Z by (by destruct f).
              apply last_written_snoc_other; [|by intros [? _]].
              apply last_written_none.
              eapply Forall_impl; [exact IH|]. intros mp' Hmp' [_ ?]. done.
    + rewrite lookup_insert_ne by done.
      assert (¬ stores_at k mp) as Hat.
      { rewrite (metric_stores_at_key _ _ _ Hst). done. }
      destruct (Metrics.metricsMap (run pts) !! k) as [r0|].
      * destruct IH as [(first & Hfirst & Hstems) Hfields]. split.
        -- exists first. split; [by apply first_where_snoc | done].
        -- intros f. apply last_written_snoc_other; [done|].
           by intros ?%writes_stores_at.
      * apply Forall_app. split; [done|]. by constructor.
  - assert (¬ stores_at k mp) as Hat by (intros (v & Hv); congruence).
    destruct (Metrics.metricsMap (run pts) !! k) as [r0|].
    + destruct IH as [(first & Hfirst & Hstems) Hfields]. split.
      * exists first. split; [by apply first_where_snoc | done].
      * intros f. apply last_written_snoc_other; [done|].
        by intros ?%writes_stores_at.
    + apply Forall_app. split; [done|]. by constructor.
Qed.

Lemma node_stores_scoped mp kv : node_stores mp = Some kv → node_scoped mp.1.
Proof. unfold node_stores. destruct (decide _) as [[_ ?]|]; done. Qed.

Lemma node_field_get_set_util f mt v u :
  node_scoped mt →
  node_field_get f (set_util mt v u) =
  if decide (mt = node_field_metric f) then v else node_field_get f u.
Proof.
  unfold set_util. intros [-> | ->]; destruct f; simpl; done.
Qed.

(** What [nodeUtilization] holds for a node after the first pass. *)
Lemma node_run_lookup pts n :
  match Metrics.nodeUtilization (run pts) !! n with
  | None => Forall (λ mp, ¬ node_stores_at n mp) pts
  | Some u =>
      ∀ f, last_written (node_writes f n) node_written_value pts
             float64_zero (node_field_get f u)
  end.
Proof.
  induction pts as [|mp pts IH] using rev_ind.
  { unfold run. simpl. rewrite lookup_empty. constructor. }
  rewrite metrics_run_snoc, step_nodeUtilization.
  destruct (node_stores mp) as [[n' v']|] eqn:Hst.
  - pose proof (node_stores_scoped _ _ Hst) as Hscoped.
    destruct (decide (n' = n)) as [->|Hn].
    + rewrite lookup_insert_eq. intros f.
      assert (node_stores_at n mp) as Hat by (by exists v').
      assert (node_written_value mp = Some v') as Hval.
      { unfold node_written_value. by rewrite Hst. }
      rewrite node_field_get_set_util by done.
      destruct (decide (mp.1 = node_field_metric f)) as [Hf|Hf].
      * by apply last_written_snoc.
      * destruct (Metrics.nodeUtilization (run pts) !! n) as [u0|]; simpl.
        -- apply last_written_snoc_other; [done|]. by intros [? _].
        -- replace (node_field_get f Metrics.zero_util) with float64_zero
             by (by destruct f).
           apply last_written_snoc_other; [|by intros [? _]].
           apply last_written_none.
           eapply Forall_impl; [exact IH|]. intros mp' Hmp' [_ ?]. done.
    + rewrite lookup_insert_ne by done.
      assert (¬ node_stores_at n mp) as Hat.
      { intros (v & Hv). congruence. }
      destruct (Metrics.nodeUtilization (run pts) !! n) as [u0|].
      * intros f. apply last_written_snoc_other; [done|]. by intros [_ ?].
      * apply Forall_app. split; [done|]. by constructor.
  - assert (¬ node_stores_at n mp) as Hat by (intros (v & Hv); congruence).
    destruct (Metrics.nodeUtilization (run pts) !! n) as [u0|].
    + intros f. apply last_written_snoc_other; [done|]. by intros [_ ?].
    + apply Forall_app. split; [done|]. by constructor.
Qed.
End metrics_run.

(** ** The metrics correlator: second pass and output *)

Section metrics_output.
Context {R : GoRuntime} `{!GoRuntimeLaws R}.
Import MetricSpec.

(** One step of the second loop, seen from a key. *)
Lemma second_pass_fold (nu : gmap string Metrics.NodeUtil)
    (l : list (string * GPUMetrics.t)) (m0 : gmap string GPUMetrics.t) k :
  NoDup l.*1 →
  (∀ kv, kv ∈ l → m0 !! kv.1 = Some kv.2) →
  foldl (λ m kv,
           match nu !! GPUMetrics.NodeName kv.2 with
           | Some util =>
               <[kv.1 := GPUMetrics.set_node_utilization
                           (int_of_float64 (Metrics.cpuUtilization util))
                           (int_of_float64 (Metrics.memoryUtilization util))
                           kv.2]> m
           | None => m
           end) m0 l !! k =
  if decide (k ∈ l.*1) then with_node_utilization nu <$> m0 !! k else m0 !! k.
Proof.
  revert m0. induction l as [|[k1 v1] l IH]; intros m0 Hnd Hl.
  { destruct (decide (k ∈ [].*1)) as [Hin|_]; [by apply elem_of_nil in Hin | done]. }
  rewrite fmap_cons in Hnd. apply NoDup_cons in Hnd as [Hk1 Hnd].
  cbn [foldl fst snd]. rewrite IH; [|done|].
  - rewrite fmap_cons. cbn [fst].
    destruct (decide (k = k1)) as [->|Hk].
    + rewrite decide_False by done.
      rewrite decide_True by (apply elem_of_cons; by left).
      assert (m0 !! k1 = Some v1) as Hv1.
      { apply (Hl (k1, v1)), elem_of_cons. by left. }
      rewrite Hv1. simpl. unfold with_node_utilization.
      destruct (nu !! GPUMetrics.NodeName v1); [by rewrite lookup_insert_eq | done].
    + assert (match nu !! GPUMetrics.NodeName v1 with
              | Some util => <[k1 := GPUMetrics.set_node_utilization
                    (int_of_float64 (Metrics.cpuUtilization util))
                    (int_of_float64 (Metrics.memoryUtilization util))
                    v1]> m0
              | None => m0 end !! k = m0 !! k) as ->.
      { destruct (nu !! _); [by rewrite lookup_insert_ne | done]. }
      destruct (decide (k ∈ l.*1)) as [Hin|Hin].
      * rewrite decide_True; [done|]. apply elem_of_cons. by right.
      * rewrite decide_False; [done|]. by intros [?|?]%elem_of_cons.
  - intros [k2 v2] Hin. simpl.
    assert (k2 ≠ k1) as Hne.
    { intros ->. apply Hk1. apply list_elem_of_fmap. by exists (k1, v2). }
    destruct (nu !! _); [rewrite lookup_insert_ne by done|];
      apply (Hl (k2, v2)), elem_of_cons; by right.
Qed.

(** The second loop maps [with_node_utilization] over the records,
    whatever the order of the visit. *)
Lemma apply_node_utilization_fmap nu (m : gmap string GPUMetrics.t) :
  Metrics.apply_node_utilization nu m = with_node_utilization nu <$> m.
Proof.
  apply map_eq. intros k. unfold Metrics.apply_node_utilization.
  pose proof (range_order_perm _ m) as Hperm.
  rewrite second_pass_fold.
  - rewrite lookup_fmap. destruct (decide _) as [|Hk]; [done|].
    destruct (m !! k) as [r|] eqn:Hr; [|done].
    exfalso. apply Hk. rewrite Hperm. apply list_elem_of_fmap.
    exists (k, r). split; [done|]. by apply elem_of_map_to_list.
  - rewrite Hperm. apply NoDup_fst_map_to_list.
  - intros [k' r'] Hin. rewrite Hperm in Hin. by apply elem_of_map_to_list.
Qed.

Lemma foldl_append_mk {A B} (f : B → A) (l0 : list A) (l : list B) :
  foldl (λ s kv, append s (f kv)) (mk_slice l0) l = mk_slice (l0 ++ (f <$> l)).
Proof.
  revert l0. induction l as [|x l IH]; intros l0; simpl.
  - by rewrite app_nil_r.
  - unfold append at 2. simpl. rewrite IH. by rewrite <- app_assoc.
Qed.

(** The third loop: nil for the empty map, the records otherwise. *)
Lemma to_slice_spec m :
  Metrics.to_slice m =
  match range_order m with [] => nil_slice | l => mk_slice l.*2 end.
Proof.
  unfold Metrics.to_slice. destruct (range_order m) as [|kv l]; [done|].
  simpl. unfold append at 2. simpl. by rewrite foldl_append_mk.
Qed.

Lemma range_order_empty {A} : range_order (∅ : gmap string A) = [].
Proof.
  apply Permutation_nil_r. by rewrite range_order_perm, map_to_list_empty.
Qed.

Lemma to_slice_empty : Metrics.to_slice ∅ = nil_slice.
Proof. by rewrite to_slice_spec, range_order_empty. Qed.

Lemma to_slice_elems m : elems (Metrics.to_slice m) ≡ₚ (map_to_list m).*2.
Proof.
  rewrite to_slice_spec, <- range_order_perm.
  by destruct (range_order m).
Qed.

Lemma to_slice_elem m r : r ∈ elems (Metrics.to_slice m) ↔ ∃ k, m !! k = Some r.
Proof.
  rewrite to_slice_elems, list_elem_of_fmap. split.
  - intros ([k r'] & -> & Hin%elem_of_map_to_list). by exists k.
  - intros (k & Hk). exists (k, r). split; [done|]. by apply elem_of_map_to_list.
Qed.

Lemma range_order_no_nil results :
  no_nil results → Forall (λ entry, entry.2 ≠ None) (range_order results).
Proof.
  intros Hnn. apply Forall_forall. intros [name resp] Hin.
  rewrite range_order_perm in Hin. apply elem_of_map_to_list in Hin.
  simpl. intros ->. by apply (Hnn name).
Qed.

Lemma first_pass_returns results :
  no_nil results →
  for_each Metrics.metrics_response Metrics.initial (range_order results) =
  Done (run (points_in_order results)).
Proof. intros Hnn. by rewrite metrics_loops by (by apply range_order_no_nil). Qed.

(** parseGPUMetrics returns, without an error, when no response is nil. *)
Lemma parseGPUMetrics_returns results :
  no_nil results →
  Metrics.parseGPUMetrics results =
  Done (Metrics.to_slice
          (with_node_utilization (Metrics.nodeUtilization (run (points_in_order results)))
             <$> Metrics.metricsMap (run (points_in_order results))), None).
Proof.
  intros Hnn. unfold Metrics.parseGPUMetrics.
  rewrite first_pass_returns by done. simpl.
  by rewrite apply_node_utilization_fmap.
Qed.

Lemma points_in_order_empty results :
  (∀ name r, results !! name = Some r → ∃ resp, r = Some resp ∧ Result (Data resp) = []) →
  points_in_order results = [].
Proof.
  intros Hempty. unfold points_in_order.
  assert (Forall (λ entry, points_of entry = []) (range_order results)) as Hall.
  { apply Forall_forall. intros [name r] Hin.
    rewrite range_order_perm in Hin. apply elem_of_map_to_list in Hin.
    destruct (Hempty _ _ Hin) as (resp & -> & Hres).
    unfold points_of. simpl. by rewrite Hres. }
  induction Hall as [|entry l Hentry _ IH]; [done|].
  by rewrite bind_cons, Hentry, IH.
Qed.
End metrics_output.

(** C3, at the input that contributes no record.  When every query
    answers with an empty result, parseGPUProcesses returns the empty
    slice it allocates for that case, and parseGPUMetrics returns the nil
    slice: [gpuMetrics] is declared without a value and nothing is ever
    appended. *)
Theorem empty_input_slices {R : GoRuntime} `{!GoRuntimeLaws R}
    (results : gmap string (option PrometheusResponse)) :
  (∀ name r, results !! name = Some r → ∃ resp, r = Some resp ∧ Result (Data resp) = []) →
  Metrics.parseGPUMetrics results = Done (nil_slice, None) ∧
  Processes.parseGPUProcesses results = Done (mk_slice [], None).
Proof.
  intros Hempty. split.
  - rewrite parseGPUMetrics_returns.
    + rewrite (points_in_order_empty _ Hempty). unfold MetricSpec.run. simpl.
      by rewrite fmap_empty, to_slice_empty.
    + intros name Hname. by destruct (Hempty _ _ Hname) as (resp & ? & _).
  - rewrite parseGPUProcesses_returns, (points_in_order_empty _ Hempty).
    unfold ProcessSpec.run, ProcessSpec.output. simpl.
    by rewrite decide_True by apply map_size_empty.
Qed.

(** C10. In parseGPUMetrics (no response nil) the second pass keeps the
    keys of the record map and, in every record, all fields but the CPU
    and memory utilization.  These two become the conversions of the
    side table entry of the record's node, and stay zero when the node
    has no entry. *)
Theorem second_pass_frame {R : GoRuntime} `{!GoRuntimeLaws R}
    (results : gmap string (option PrometheusResponse)) :
  no_nil results →
  let st := MetricSpec.run (points_in_order results) in
  let before := Metrics.metricsMap st in
  let after := Metrics.apply_node_utilization (Metrics.nodeUtilization st) before in
  for_each Metrics.metrics_response Metrics.initial (range_order results) = Done st ∧
  Metrics.parseGPUMetrics results = Done (Metrics.to_slice after, None) ∧
  dom after = dom before ∧
  ∀ k r, before !! k = Some r →
    ∃ r', after !! k = Some r' ∧
      GPUMetrics.NodeName r' = GPUMetrics.NodeName r ∧
      GPUMetrics.GPUIndex r' = GPUMetrics.GPUIndex r ∧
      GPUMetrics.GPUName r' = GPUMetrics.GPUName r ∧
      GPUMetrics.GPUMemoryFree r' = GPUMetrics.GPUMemoryFree r ∧
      GPUMetrics.GPUMemoryUsed r' = GPUMetrics.GPUMemoryUsed r ∧
      GPUMetrics.GPUMemoryTotal r' = GPUMetrics.GPUMemoryTotal r ∧
      GPUMetrics.GPUUtilization r' = GPUMetrics.GPUUtilization r ∧
      GPUMetrics.GPUTemperature r' = GPUMetrics.GPUTemperature r ∧
      GPUMetrics.Timestamp r' = GPUMetrics.Timestamp r ∧
      match Metrics.nodeUtilization st !! GPUMetrics.NodeName r with
      | None =>
          r' = r ∧
          GPUMetrics.CPUUtilization r' = 0%Z ∧ GPUMetrics.MemoryUtilization r' = 0%Z
      | Some util =>
          GPUMetrics.CPUUtilization r' = int_of_float64 (Metrics.cpuUtilization util) ∧
          GPUMetrics.MemoryUtilization r' = int_of_float64 (Metrics.memoryUtilization util)
      end.
Proof.
  intros Hnn st before after. split_and!.
  - by apply first_pass_returns.
  - unfold Metrics.parseGPUMetrics. by rewrite first_pass_returns.
  - unfold after. rewrite apply_node_utilization_fmap. apply dom_fmap_L.
  - intros k r Hr. unfold after. rewrite apply_node_utilization_fmap, lookup_fmap, Hr.
    simpl. eexists. split; [done|].
    unfold MetricSpec.with_node_utilization.
    pose proof (metrics_run_lookup (points_in_order results) k) as Hinv.
    fold st before in Hinv. rewrite Hr in Hinv.
    destruct Hinv as [(first & _ & (_ & _ & _ & Hcpu & Hmem)) _].
    destruct (Metrics.nodeUtilization st !! GPUMetrics.NodeName r); simpl; done.
Qed.

(** ** C2: values that do not parse *)

(** C2, as the code has it.  A point whose value string does not parse
    makes neither correlator fail and sets nothing: the metrics
    correlator keeps its whole state and the process correlator its
    record map.  parseGPUMetrics (no response nil) and parseGPUProcesses
    return without an error; and when no point with the key of that point
    has a value that parses, parseGPUProcesses holds no record under that
    key: no record with zero memory is emitted for it. *)
Theorem unparseable_value_sets_nothing {R : GoRuntime} `{!GoRuntimeLaws R}
    (p : Point) (s : string) :
  Value p !! 1 = Some (AnyString s) →
  ParseFloat s = None →
  (∀ mt st, Metrics.metrics_point mt st p = Done st) ∧
  (∀ mt st, ∃ st', Processes.process_point mt st p = Done st' ∧
                   Processes.processMap st' = Processes.processMap st) ∧
  (∀ results, no_nil results → ∃ out, Metrics.parseGPUMetrics results = Done (out, None)) ∧
  (∀ results,
     let processMap := Processes.processMap (ProcessSpec.run (points_in_order results)) in
     Processes.parseGPUProcesses results =
       Done (mk_slice (ProcessSpec.output processMap), None) ∧
     ((∀ mp, mp ∈ points_in_order results →
             ProcessSpec.key_of mp.2 = ProcessSpec.key_of p → parsed_value mp.2 = None) →
      processMap !! ProcessSpec.key_of p = None ∧
      ∀ r, r ∈ ProcessSpec.output processMap →
           ∀ k, processMap !! k = Some r → k ≠ ProcessSpec.key_of p)).
Proof.
  intros Hp Hs. pose proof (unparseable_no_value p s Hp Hs) as Hnone. split_and!.
  - intros mt st. by apply metrics_point_no_value.
  - intros mt st. by apply process_point_no_value.
  - intros results Hnn. eexists. by apply parseGPUMetrics_returns.
  - intros results processMap. split; [apply parseGPUProcesses_returns|].
    intros Honly.
    assert (processMap !! ProcessSpec.key_of p = None) as Hkey.
    { pose proof (run_lookup (points_in_order results) (ProcessSpec.key_of p)) as Hinv.
      fold processMap in Hinv.
      destruct (processMap !! ProcessSpec.key_of p) as [r|]; [|done].
      destruct Hinv as (first & _ & _ & _ & Hfirst & _).
      apply first_where_elem in Hfirst as [Hin (v & Hv)].
      unfold ProcessSpec.stores in Hv.
      destruct (decide (ProcessSpec.identified first.2)); [|done].
      destruct (parsed_value first.2) as [v'|] eqn:Hv'; [|done].
      simpl in Hv. injection Hv as Hk _.
      by rewrite (Honly first Hin Hk) in Hv'. }
    split; [done|]. intros r _ k Hk ->. congruence.
Qed.

(** ** C7: the fan-out *)

Section fanout.
Variable Query : string → PrometheusResponse + error.

(** A query of [tasks] failed: the call ends with the error of one of them. *)
Lemma first_error_failed (tasks : list (string * string)) task err :
  task ∈ tasks → Query task.2 = inr err →
  ∃ task' err', task' ∈ tasks ∧ Query task'.2 = inr err' ∧
    Fanout.first_error (Fanout.messages Query tasks) =
    Some (query_failed task'.1 err').
Proof.
  induction tasks as [|t tasks IH]; intros Hin Herr; [by apply elem_of_nil in Hin|].
  unfold Fanout.messages. rewrite fmap_cons. cbn [Fanout.first_error].
  unfold Fanout.query_task at 1.
  destruct (Query t.2) as [resp|err0] eqn:Ht; simpl.
  - apply elem_of_cons in Hin as [->|Hin]; [congruence|].
    destruct (IH Hin Herr) as (task' & err' & Hin' & Herr' & Hfirst).
    exists task', err'. split_and!; [|done..]. apply elem_of_cons. by right.
  - exists t, err0. split_and!; [|done..]. apply elem_of_cons. by left.
Qed.

(** Every query of [tasks] succeeded: no message is an error. *)
Lemma first_error_none (tasks : list (string * string)) :
  (∀ task, task ∈ tasks → ∃ resp, Query task.2 = inl resp) →
  Fanout.first_error (Fanout.messages Query tasks) = None.
Proof.
  induction tasks as [|t tasks IH]; intros Hall; [done|].
  unfold Fanout.messages. rewrite fmap_cons. cbn [Fanout.first_error].
  unfold Fanout.query_task at 1.
  destruct (Hall t) as (resp & ->); [apply elem_of_cons; by left|]. simpl.
  apply IH. intros task Hin. apply Hall, elem_of_cons. by right.
Qed.

(** The goroutines store no nil response. *)
Lemma collect_no_nil (tasks : list (string * string)) :
  no_nil (Fanout.collect Query tasks).
Proof.
  unfold Fanout.collect.
  assert (no_nil (∅ : gmap string (option PrometheusResponse))) as Hinit.
  { intros name. by rewrite lookup_empty. }
  revert Hinit. generalize (∅ : gmap string (option PrometheusResponse)).
  induction tasks as [|t tasks IH]; intros results Hnn; [done|].
  simpl. apply IH.
  destruct (Fanout.query_task Query t.1 t.2).1 as [resp|]; [|done].
  intros name. destruct (decide (t.1 = name)) as [->|Hne].
  - by rewrite lookup_insert_eq.
  - rewrite lookup_insert_ne by done. apply Hnn.
Qed.
End fanout.

(** C7. Let the messages of the goroutines arrive in any order.  If a
    query of GetGPUMetrics (of GetGPUProcesses) fails, the call returns
    the nil slice and the wrapped error of a failed query; if every query
    succeeds, the call returns without an error. *)
Theorem query_failure_fails_call {R : GoRuntime} `{!GoRuntimeLaws R}
    (Query : string → PrometheusResponse + error)
    (arrival_metrics arrival_processes : list (string * string)) :
  arrival_metrics ≡ₚ map_to_list Metrics.queries →
  arrival_processes ≡ₚ map_to_list Processes.queries →
  ((∀ name query err, Metrics.queries !! name = Some query → Query query = inr err →
      ∃ name' query' err',
        Metrics.queries !! name' = Some query' ∧ Query query' = inr err' ∧
        Metrics.GetGPUMetrics Query arrival_metrics =
          Done (nil_slice, Some (query_failed name' err'))) ∧
   ((∀ name query, Metrics.queries !! name = Some query → ∃ resp, Query query = inl resp) →
      ∃ out, Metrics.GetGPUMetrics Query arrival_metrics = Done (out, None))) ∧
  ((∀ name query err, Processes.queries !! name = Some query → Query query = inr err →
      ∃ name' query' err',
        Processes.queries !! name' = Some query' ∧ Query query' = inr err' ∧
        Processes.GetGPUProcesses Query arrival_processes =
          Done (nil_slice, Some (query_failed name' err'))) ∧
   ((∀ name query, Processes.queries !! name = Some query → ∃ resp, Query query = inl resp) →
      ∃ out, Processes.GetGPUProcesses Query arrival_processes = Done (out, None))).
Proof.
  intros Hm Hp. split; split.
  - intros name query err Hq Herr.
    destruct (first_error_failed Query arrival_metrics (name, query) err)
      as ([name' query'] & err' & Hin & Herr' & Hfirst); [|done|].
    { rewrite Hm. by apply elem_of_map_to_list. }
    exists name', query', err'. split_and!; [|done|].
    + rewrite Hm in Hin. by apply elem_of_map_to_list in Hin.
    + unfold Metrics.GetGPUMetrics. by rewrite Hfirst.
  - intros Hall. unfold Metrics.GetGPUMetrics.
    rewrite first_error_none.
    + eexists. apply parseGPUMetrics_returns, collect_no_nil.
    + intros [name query] Hin. rewrite Hm in Hin.
      apply elem_of_map_to_list in Hin. by apply (Hall name).
  - intros name query err Hq Herr.
    destruct (first_error_failed Query arrival_processes (name, query) err)
      as ([name' query'] & err' & Hin & Herr' & Hfirst); [|done|].
    { rewrite Hp. by apply elem_of_map_to_list. }
    exists name', query', err'. split_and!; [|done|].
    + rewrite Hp in Hin. by apply elem_of_map_to_list in Hin.
    + unfold Processes.GetGPUProcesses. by rewrite Hfirst.
  - intros Hall. unfold Processes.GetGPUProcesses.
    rewrite first_error_none.
    + eexists. apply parseGPUProcesses_returns.
    + intros [name query] Hin. rewrite Hp in Hin.
      apply elem_of_map_to_list in Hin. by apply (Hall name).
Qed.

(** ** Atoi after Itoa *)

Lemma digit_of_digit_char d : (0 ≤ d ≤ 9)%Z → digit_of (digit_char d) = Some d.
Proof.
  intros Hd.
  assert (d = 0 ∨ d = 1 ∨ d = 2 ∨ d = 3 ∨ d = 4 ∨ d = 5 ∨ d = 6 ∨ d = 7 ∨ d = 8 ∨ d = 9)%Z
    as Hcases by lia.
  destruct_or!; subst d; reflexivity.
Qed.

(** Reading the digits written for [n] gives [n] back. *)
Lemma parse_format_uint fuel n acc :
  (0 ≤ n ≤ maxUint64)%Z → (n < 10 ^ Z.of_nat fuel)%Z →
  parse_uint10 0 (format_uint fuel n acc) = parse_uint10 n acc.
Proof.
  revert n acc. induction fuel as [|fuel IH]; intros n acc Hn Hfuel.
  { simpl in *. by replace n with 0%Z by lia. }
  rewrite Nat2Z.inj_succ, Z.pow_succ_r in Hfuel by lia.
  cbn [format_uint].
  assert (0 ≤ n mod 10 ≤ 9)%Z as Hmod by (pose proof (Z.mod_pos_bound n 10); lia).
  assert (∀ m : Z, (m * 10 + n mod 10)%Z = n →
            parse_uint10 m (String (digit_char (n mod 10)) acc) = parse_uint10 n acc)
    as Hdigit.
  { intros m Hm. cbn [parse_uint10]. rewrite digit_of_digit_char by done.
    simpl. rewrite Hm. rewrite decide_False by lia. done. }
  destruct (decide (n < 10)%Z) as [Hlt|Hge].
  - apply Hdigit. rewrite Z.mod_small by lia. lia.
  - rewrite IH.
    + apply Hdigit. pose proof (Z.div_mod n 10). lia.
    + split; [apply Z.div_pos; lia|].
      pose proof (Z.div_le_upper_bound n 10 n). lia.
    + apply Z.div_lt_upper_bound; lia.
Qed.

(** What is written for a number starts with a digit. *)
Lemma format_uint_head fuel n acc :
  ∃ d rest, (0 ≤ d ≤ 9)%Z ∧ format_uint (S fuel) n acc = String (digit_char d) rest.
Proof.
  revert n acc. induction fuel as [|fuel IH]; intros n acc.
  - exists (n mod 10)%Z. pose proof (Z.mod_pos_bound n 10).
    simpl. destruct (decide _); eexists; (split; [lia | done]).
  - cbn [format_uint]. destruct (decide (n < 10)%Z).
    + exists (n mod 10)%Z. pose proof (Z.mod_pos_bound n 10).
      eexists. split; [lia | done].
    + apply (IH (n / 10)%Z).
Qed.

(** On a string that starts with a digit Atoi takes no sign. *)
Lemma Atoi_unsigned d rest :
  (0 ≤ d ≤ 9)%Z →
  Atoi (String (digit_char d) rest) =
  match parse_uint10 0 (String (digit_char d) rest) with
  | ScanSyntax => (0%Z, true)
  | ScanRange => (maxInt64, true)
  | ScanOk un => if decide (maxInt64 < un)%Z then (maxInt64, true) else (un, false)
  end.
Proof.
  intros Hd.
  assert (d = 0 ∨ d = 1 ∨ d = 2 ∨ d = 3 ∨ d = 4 ∨ d = 5 ∨ d = 6 ∨ d = 7 ∨ d = 8 ∨ d = 9)%Z
    as Hcases by lia.
  destruct_or!; subst d; reflexivity.
Qed.

Lemma Atoi_signed d rest :
  (0 ≤ d ≤ 9)%Z →
  Atoi (String "-" (String (digit_char d) rest)) =
  match parse_uint10 0 (String (digit_char d) rest) with
  | ScanSyntax => (0%Z, true)
  | ScanRange => (minInt64, true)
  | ScanOk un => if decide (- minInt64 < un)%Z then (minInt64, true) else ((- un)%Z, false)
  end.
Proof. intros Hd. reflexivity. Qed.

(** Atoi reads back what Itoa writes, without an error. *)
Lemma Atoi_Itoa n : (minInt64 ≤ n ≤ maxInt64)%Z → Atoi (Itoa n) = (n, false).
Proof.
  unfold Itoa, minInt64, maxInt64. intros Hn.
  destruct (decide (n < 0)%Z) as [Hneg|Hpos].
  - destruct (format_uint_head 19 (- n) "") as (d & rest & Hd & Hhead).
    rewrite Hhead, Atoi_signed by done. rewrite <- Hhead.
    rewrite parse_format_uint.
    + simpl. unfold minInt64. rewrite decide_False by lia. f_equal. lia.
    + unfold maxUint64. lia.
    + simpl. lia.
  - destruct (format_uint_head 19 n "") as (d & rest & Hd & Hhead).
    rewrite Hhead, Atoi_unsigned by done. rewrite <- Hhead.
    rewrite parse_format_uint.
    + simpl. unfold maxInt64. by rewrite decide_False by lia.
    + unfold maxUint64. lia.
    + simpl. lia.
Qed.

(** Itoa writes at least one character. *)
Lemma Itoa_nonempty n : Itoa n ≠ "".
Proof.
  unfold Itoa. destruct (decide _); [done|].
  by destruct (format_uint_head 19 n "") as (d & rest & _ & ->).
Qed.

(** A label that Itoa does not write is not read back: the error of
    Atoi is discarded by both correlators. *)
Example Atoi_other_labels :
  Atoi "007" = (7%Z, false) ∧ Itoa 7 = "7" ∧
  Atoi "abc" = (0%Z, true) ∧ Itoa 0 = "0".
Proof. repeat split; reflexivity. Qed.

(** ** C4: node name and GPU index of a record *)

Section metric_identity.
Context {R : GoRuntime}.
Import MetricSpec.

Lemma stores_Some mp k v :
  stores mp = Some (k, v) ↔
  hostname mp.2 ≠ "" ∧ ¬ node_scoped mp.1 ∧ gpu_id mp.2 ≠ "" ∧
  k = key_of mp.2 ∧ parsed_value mp.2 = Some v.
Proof.
  unfold stores. destruct (decide _) as [(? & ? & ?)|Hn].
  - destruct (parsed_value mp.2) as [v'|]; simpl; split.
    + intros [= <- <-]. done.
    + intros (_ & _ & _ & -> & [= ->]). done.
    + done.
    + by intros (_ & _ & _ & _ & ?).
  - split; [done|]. intros (? & ? & ? & _). tauto.
Qed.

Lemma node_stores_Some mp n v :
  node_stores mp = Some (n, v) ↔
  hostname mp.2 ≠ "" ∧ node_scoped mp.1 ∧ n = hostname mp.2 ∧
  parsed_value mp.2 = Some v.
Proof.
  unfold node_stores. destruct (decide _) as [(? & ?)|Hn].
  - destruct (parsed_value mp.2) as [v'|]; simpl; split.
    + intros [= <- <-]. done.
    + intros (_ & _ & -> & [= ->]). done.
    + done.
    + by intros (_ & _ & _ & ?).
  - split; [done|]. intros (? & ? & _). tauto.
Qed.

(** The second pass keeps node name and index. *)
Lemma with_node_utilization_identity nu r :
  GPUMetrics.NodeName (with_node_utilization nu r) = GPUMetrics.NodeName r ∧
  GPUMetrics.GPUIndex (with_node_utilization nu r) = GPUMetrics.GPUIndex r.
Proof. unfold with_node_utilization. by destruct (nu !! _). Qed.
End metric_identity.

(** C4. Let no response be nil and let every gpu_id label be the decimal
    rendering of an integer (or be absent).  Then parseGPUMetrics returns
    without an error, and every record it emits has a node name that is
    not empty and stems from a point whose hostname is that node name and
    whose gpu_id label is what Itoa renders the record's GPU index to;
    Atoi read that label without an error. *)
Theorem gpu_index_round_trip {R : GoRuntime} `{!GoRuntimeLaws R}
    (results : gmap string (option PrometheusResponse)) :
  no_nil results →
  (∀ mp, mp ∈ points_in_order results →
         MetricSpec.gpu_id mp.2 = "" ∨ MetricSpec.canonical_index (MetricSpec.gpu_id mp.2)) →
  ∃ out, Metrics.parseGPUMetrics results = Done (out, None) ∧
    ∀ r, r ∈ elems out →
      GPUMetrics.NodeName r ≠ "" ∧
      ∃ k first,
        first_where (MetricSpec.stores_at k) (points_in_order results) first ∧
        MetricSpec.hostname first.2 = GPUMetrics.NodeName r ∧
        Atoi (MetricSpec.gpu_id first.2) = (GPUMetrics.GPUIndex r, false) ∧
        Itoa (GPUMetrics.GPUIndex r) = MetricSpec.gpu_id first.2.
Proof.
  intros Hnn Hvalid. eexists. split; [by apply parseGPUMetrics_returns|].
  intros r (k & Hk)%to_slice_elem.
  rewrite lookup_fmap in Hk.
  pose proof (metrics_run_lookup (points_in_order results) k) as Hinv.
  destruct (Metrics.metricsMap _ !! k) as [r0|]; [|done].
  simpl in Hk. injection Hk as <-.
  destruct Hinv as [(first & Hfirst & (Hnode & Hidx & _)) _].
  destruct (with_node_utilization_identity
              (Metrics.nodeUtilization (MetricSpec.run (points_in_order results))) r0)
    as [-> ->].
  pose proof (first_where_elem _ _ _ Hfirst) as [Hin (v & Hstores)].
  apply stores_Some in Hstores as (Hhost & _ & Hgpu & _ & _).
  destruct (Hvalid first Hin) as [Hempty|(n & Hn & Hlabel)]; [done|].
  assert (Atoi (MetricSpec.gpu_id first.2) = (GPUMetrics.GPUIndex r0, false)) as Hatoi.
  { rewrite Hidx, Hlabel, Atoi_Itoa by done. done. }
  split; [by rewrite Hnode|].
  exists k, first. split_and!; [done..|].
  rewrite Hidx, Hlabel, Atoi_Itoa by done. done.
Qed.

(** ** C6: the scenario of the specification *)

Section scenario.
Context {R : GoRuntime} `{!GoRuntimeLaws R}.
Import MetricSpec Examples.

Lemma scenario_entries :
  map_to_list scenario ≡ₚ
  [ ("gpu_mem_free", Some (response [point gpu_labels "8192"]));
    ("gpu_mem_used", Some (response [point gpu_labels "8192"]));
    ("gpu_mem_total", Some (response [point gpu_labels "16384"]));
    ("gpu_utilization", Some (response [point gpu_labels "75"]));
    ("gpu_temperature", Some (response [point gpu_labels "65"]));
    ("cpu_utilization", Some (response [point [("hostname", "node1")] "25.5"]));
    ("memory_utilization", Some (response [point [("hostname", "node1")] "50.0"])) ].
Proof.
  unfold scenario.
  repeat (rewrite map_to_list_insert by (by simplify_map_eq)).
  by rewrite map_to_list_singleton.
Qed.

Lemma scenario_points_perm : points_in_order scenario ≡ₚ scenario_points.
Proof.
  unfold points_in_order. by rewrite range_order_perm, scenario_entries.
Qed.

Lemma scenario_no_nil : no_nil scenario.
Proof.
  intros name Hname. apply elem_of_map_to_list in Hname.
  rewrite scenario_entries in Hname.
  repeat (apply elem_of_cons in Hname as [Heq|Hname]; [congruence|]).
  by apply elem_of_nil in Hname.
Qed.

(** The five points of the GPU series and the two of the node series. *)
Lemma scenario_point_cases (P : string * Point → Prop) :
  (∀ mt value, (mt, point gpu_labels value) ∈ scenario_points → ¬ node_scoped mt →
               P (mt, point gpu_labels value)) →
  (∀ mt value, (mt, point [("hostname", "node1")] value) ∈ scenario_points →
               node_scoped mt → P (mt, point [("hostname", "node1")] value)) →
  ∀ mp, mp ∈ scenario_points → P mp.
Proof.
  intros Hgpu Hnode mp Hin. pose proof Hin as Hin'. unfold scenario_points in Hin'.
  repeat (apply elem_of_cons in Hin' as [->|Hin']; [
    first [ apply Hgpu; [done | by intros [?|?]]
          | apply Hnode; [done | by (left + right)] ] |]).
  by apply elem_of_nil in Hin'.
Qed.

(** Every point that stores does so under node1:0, for node1 and index 0. *)
Lemma scenario_stores mp k :
  mp ∈ scenario_points → stores_at k mp →
  k = "node1:0" ∧ hostname mp.2 = "node1" ∧ gpu_id mp.2 = "0".
Proof.
  intros Hin. revert mp Hin k.
  apply (scenario_point_cases
           (λ mp, ∀ k, stores_at k mp →
              k = "node1:0" ∧ hostname mp.2 = "node1" ∧ gpu_id mp.2 = "0")).
  - intros mt value _ _ k (v & Hv). apply stores_Some in Hv as (_ & _ & _ & -> & _).
    done.
  - intros mt value _ Hscoped k (v & Hv).
    apply stores_Some in Hv as (_ & ? & _). done.
Qed.

Lemma scenario_node_stores mp n :
  mp ∈ scenario_points → node_stores_at n mp → n = "node1".
Proof.
  intros Hin. revert mp Hin n.
  apply (scenario_point_cases (λ mp, ∀ n, node_stores_at n mp → n = "node1")).
  - intros mt value _ Hscoped n (v & Hv).
    apply node_stores_Some in Hv as (_ & ? & _). done.
  - intros mt value _ _ n (v & Hv).
    apply node_stores_Some in Hv as (_ & _ & -> & _). done.
Qed.

Hypothesis reads_8192 : reads "8192" 8192.
Hypothesis reads_16384 : reads "16384" 16384.
Hypothesis reads_75 : reads "75" 75.
Hypothesis reads_65 : reads "65" 65.
Hypothesis reads_25_5 : reads "25.5" 25.
Hypothesis reads_50_0 : reads "50.0" 50.

Lemma reads_value s z : reads s z → ∃ v, ParseFloat s = Some v ∧ int_of_float64 v = z.
Proof.
  unfold reads. destruct (ParseFloat s) as [v|]; [|done].
  intros [= <-]. by exists v.
Qed.

(** Each field has one point that writes it, with the expected value. *)
Lemma scenario_writer f :
  ∃ mp, mp ∈ scenario_points ∧ writes f "node1:0" mp ∧
        written_value mp = Some (expected f).
Proof.
  assert (∀ mt value z, ¬ node_scoped mt → reads value z →
            stores_at "node1:0" (mt, point gpu_labels value) ∧
            written_value (mt, point gpu_labels value) = Some z) as Hpoint.
  { intros mt value z Hmt (v & Hv & <-)%reads_value.
    assert (stores (mt, point gpu_labels value) = Some ("node1:0", v)) as Hst.
    { apply stores_Some. split_and!; done. }
    split; [by exists v|]. unfold written_value. by rewrite Hst. }
  destruct f.
  - exists ("gpu_mem_free", point gpu_labels "8192").
    destruct (Hpoint "gpu_mem_free" "8192" 8192%Z) as [? ?]; [by intros [?|?] | done|].
    split_and!; [unfold scenario_points; solve_elem_of | done..].
  - exists ("gpu_mem_used", point gpu_labels "8192").
    destruct (Hpoint "gpu_mem_used" "8192" 8192%Z) as [? ?]; [by intros [?|?] | done|].
    split_and!; [unfold scenario_points; solve_elem_of | done..].
  - exists ("gpu_mem_total", point gpu_labels "16384").
    destruct (Hpoint "gpu_mem_total" "16384" 16384%Z) as [? ?]; [by intros [?|?] | done|].
    split_and!; [unfold scenario_points; solve_elem_of | done..].
  - exists ("gpu_utilization", point gpu_labels "75").
    destruct (Hpoint "gpu_utilization" "75" 75%Z) as [? ?]; [by intros [?|?] | done|].
    split_and!; [unfold scenario_points; solve_elem_of | done..].
  - exists ("gpu_temperature", point gpu_labels "65").
    destruct (Hpoint "gpu_temperature" "65" 65%Z) as [? ?]; [by intros [?|?] | done|].
    split_and!; [unfold scenario_points; solve_elem_of | done..].
Qed.

(** No other point writes the field. *)
Lemma scenario_writer_unique f mp mp' :
  mp ∈ scenario_points → mp' ∈ scenario_points →
  mp.1 = field_metric f → mp'.1 = field_metric f → mp = mp'.
Proof.
  unfold scenario_points. intros Hin Hin' Hmt Hmt'.
  repeat (apply elem_of_cons in Hin as [->|Hin]);
    try (by apply elem_of_nil in Hin);
    repeat (apply elem_of_cons in Hin' as [->|Hin']);
    try (by apply elem_of_nil in Hin');
    destruct f; simpl in *; congruence.
Qed.

Lemma scenario_node_writer f :
  ∃ mp v, mp ∈ scenario_points ∧ node_writes f "node1" mp ∧
          node_written_value mp = Some v ∧ int_of_float64 v = expected_node f.
Proof.
  assert (∀ mt value z, node_scoped mt → reads value z →
            ∃ v, node_stores_at "node1" (mt, point [("hostname", "node1")] value) ∧
                 node_written_value (mt, point [("hostname", "node1")] value) = Some v ∧
                 int_of_float64 v = z) as Hpoint.
  { intros mt value z Hmt (v & Hv & <-)%reads_value.
    assert (node_stores (mt, point [("hostname", "node1")] value) = Some ("node1", v))
      as Hst.
    { apply node_stores_Some. split_and!; done. }
    exists v. split_and!; [by exists v| |done].
    unfold node_written_value. by rewrite Hst. }
  destruct f.
  - destruct (Hpoint "cpu_utilization" "25.5" 25%Z) as (v & ? & ? & ?);
      [by left | done|].
    exists ("cpu_utilization", point [("hostname", "node1")] "25.5"), v.
    split_and!; [unfold scenario_points; solve_elem_of | done..].
  - destruct (Hpoint "memory_utilization" "50.0" 50%Z) as (v & ? & ? & ?);
      [by right | done|].
    exists ("memory_utilization", point [("hostname", "node1")] "50.0"), v.
    split_and!; [unfold scenario_points; solve_elem_of | done..].
Qed.

Lemma scenario_node_writer_unique f mp mp' :
  mp ∈ scenario_points → mp' ∈ scenario_points →
  mp.1 = node_field_metric f → mp'.1 = node_field_metric f → mp = mp'.
Proof.
  unfold scenario_points. intros Hin Hin' Hmt Hmt'.
  repeat (apply elem_of_cons in Hin as [->|Hin]);
    try (by apply elem_of_nil in Hin);
    repeat (apply elem_of_cons in Hin' as [->|Hin']);
    try (by apply elem_of_nil in Hin');
    destruct f; simpl in *; congruence.
Qed.
End scenario.

(** C6. On the scenario of the specification, in a runtime that reads
    the seven literals as Go does (25.5 becomes 25, 50.0 becomes 50),
    parseGPUMetrics emits exactly one record, for node1 and GPU 0, with
    free 8192, used 8192, total 16384, utilization 75, temperature 65,
    CPU utilization 25 and memory utilization 50, in whatever order the
    seven series are visited. *)
Theorem scenario_record {R : GoRuntime} `{!GoRuntimeLaws R} :
  reads "8192" 8192 → reads "16384" 16384 → reads "75" 75 → reads "65" 65 →
  reads "25.5" 25 → reads "50.0" 50 →
  ∃ r, Metrics.parseGPUMetrics Examples.scenario = Done (mk_slice [r], None) ∧
       GPUMetrics.NodeName r = "node1" ∧
       GPUMetrics.GPUIndex r = 0%Z ∧
       GPUMetrics.GPUMemoryFree r = 8192%Z ∧
       GPUMetrics.GPUMemoryUsed r = 8192%Z ∧
       GPUMetrics.GPUMemoryTotal r = 16384%Z ∧
       GPUMetrics.GPUUtilization r = 75%Z ∧
       GPUMetrics.GPUTemperature r = 65%Z ∧
       GPUMetrics.CPUUtilization r = 25%Z ∧
       GPUMetrics.MemoryUtilization r = 50%Z.
Proof.
  intros H8192 H16384 H75 H65 H25 H50.
  pose proof scenario_points_perm as Hperm.
  set (pts := points_in_order Examples.scenario) in *.
  set (st := MetricSpec.run pts).
  (* the record map holds one record, under node1:0 *)
  assert (∀ k r, Metrics.metricsMap st !! k = Some r →
            k = "node1:0" ∧ GPUMetrics.NodeName r = "node1" ∧
            GPUMetrics.GPUIndex r = 0%Z ∧
            ∀ f, MetricSpec.field_get f r = Examples.expected f) as Hrecord.
  { intros k r Hk. pose proof (metrics_run_lookup pts k) as Hinv.
    fold st in Hinv. rewrite Hk in Hinv.
    destruct Hinv as [(first & Hfirst & (Hnode & Hidx & _)) Hfields].
    apply first_where_elem in Hfirst as [Hin Hat]. rewrite Hperm in Hin.
    destruct (scenario_stores _ _ Hin Hat) as (-> & Hhost & Hgpu).
    split_and!; [done | congruence | by rewrite Hidx, Hgpu |].
    intros f.
    destruct (scenario_writer H8192 H16384 H75 H65 f) as (w & Hw & Hwrites & Hval).
    destruct (Hfields f) as [[Hnone _]|(last & Hlast & Hlastval)].
    - rewrite Hperm in Hnone. rewrite Forall_forall in Hnone.
      by destruct (Hnone w Hw).
    - apply last_where_elem in Hlast as [Hlin [Hlmt _]]. rewrite Hperm in Hlin.
      destruct Hwrites as [Hwmt _].
      rewrite (scenario_writer_unique f last w Hlin Hw Hlmt Hwmt) in Hlastval.
      congruence. }
  assert (is_Some (Metrics.metricsMap st !! "node1:0")) as [r0 Hr0].
  { pose proof (metrics_run_lookup pts "node1:0") as Hinv. fold st in Hinv.
    destruct (Metrics.metricsMap st !! "node1:0") as [r|]; [by eexists|].
    destruct (scenario_writer H8192 H16384 H75 H65 MetricSpec.Free)
      as (w & Hw & [_ Hat] & _).
    rewrite Hperm in Hinv. rewrite Forall_forall in Hinv. by destruct (Hinv w Hw). }
  assert (Metrics.metricsMap st = {[ "node1:0" := r0 ]}) as Hmap.
  { apply map_eq. intros k. destruct (decide (k = "node1:0")) as [->|Hk].
    - by rewrite lookup_singleton_eq.
    - rewrite lookup_singleton_ne by done.
      destruct (Metrics.metricsMap st !! k) as [r|] eqn:Hr; [|done].
      by destruct (Hrecord k r Hr) as [? _]. }
  (* the side table holds the entry of node1 *)
  assert (∃ util, Metrics.nodeUtilization st !! "node1" = Some util ∧
            ∀ f, int_of_float64 (MetricSpec.node_field_get f util) = Examples.expected_node f)
    as (util & Hutil & Hnode).
  { pose proof (node_run_lookup pts "node1") as Hinv. fold st in Hinv.
    destruct (Metrics.nodeUtilization st !! "node1") as [util|].
    - exists util. split; [done|]. intros f.
      destruct (scenario_node_writer H25 H50 f) as (w & v & Hw & Hwrites & Hval & Hint).
      destruct (Hinv f) as [[Hnone _]|(last & Hlast & Hlastval)].
      + rewrite Hperm in Hnone. rewrite Forall_forall in Hnone.
        by destruct (Hnone w Hw).
      + apply last_where_elem in Hlast as [Hlin [Hlmt _]]. rewrite Hperm in Hlin.
        destruct Hwrites as [Hwmt _].
        rewrite (scenario_node_writer_unique f last w Hlin Hw Hlmt Hwmt) in Hlastval.
        congruence.
    - destruct (scenario_node_writer H25 H50 MetricSpec.Cpu)
        as (w & v & Hw & [_ Hat] & _).
      rewrite Hperm in Hinv. rewrite Forall_forall in Hinv. by destruct (Hinv w Hw). }
  destruct (Hrecord _ _ Hr0) as (_ & Hname & Hidx & Hfields).
  exists (MetricSpec.with_node_utilization (Metrics.nodeUtilization st) r0). split.
  - rewrite parseGPUMetrics_returns by apply scenario_no_nil.
    fold pts st. rewrite Hmap, map_fmap_singleton, to_slice_spec.
    by rewrite range_order_singleton.
  - unfold MetricSpec.with_node_utilization. rewrite Hname, Hutil. simpl.
    split_and!; try done.
    + apply (Hfields MetricSpec.Free).
    + apply (Hfields MetricSpec.Used).
    + apply (Hfields MetricSpec.Total).
    + apply (Hfields MetricSpec.Utilization).
    + apply (Hfields MetricSpec.Temperature).
    + apply (Hnode MetricSpec.Cpu).
    + apply (Hnode MetricSpec.Mem).
Qed.

(** * The properties on concrete inputs, in the reference runtime *)

Lemma processes_sorted_witness :
  (∃ out,
     Processes.parseGPUProcesses (R := Reference.runtime)
       (Examples.process_results
          [ Examples.point (Examples.process_labels "node2" "1" "7") "100";
            Examples.point (Examples.process_labels "node1" "1" "1234") "2048";
            Examples.point (Examples.process_labels "node1" "0" "1234") "4096" ]) =
     Done (mk_slice out, None) ∧
     ProcessSpec.ascending out) ∧
  (∃ out err,
     Processes.GetGPUProcesses (R := Reference.runtime) Examples.empty_backend
       (map_to_list Processes.queries) = Done (out, err) ∧
     ProcessSpec.ascending (elems out)).
Proof.
  apply (processes_sorted (R := Reference.runtime) (GoRuntimeLaws0 := reference_laws)).
Defined.

Lemma unparseable_value_sets_nothing_witness :
  Value (Examples.point (Examples.process_labels "node1" "0" "1234") "invalid_number") !! 1 =
    Some (AnyString "invalid_number") ∧
  ParseFloat (GoRuntime := Reference.runtime) "invalid_number" = None ∧
  ∀ mt st,
    Metrics.metrics_point (R := Reference.runtime) mt st
      (Examples.point (Examples.process_labels "node1" "0" "1234") "invalid_number") =
    Done st.
Proof.
  split; [reflexivity|]. split; [reflexivity|].
  apply (unparseable_value_sets_nothing (R := Reference.runtime)
           (GoRuntimeLaws0 := reference_laws)
           (Examples.point (Examples.process_labels "node1" "0" "1234") "invalid_number")
           "invalid_number"); reflexivity.
Defined.

Lemma empty_results_lookup name r :
  Examples.empty_results !! name = Some r →
  ∃ resp, r = Some resp ∧ Result (Data resp) = [].
Proof.
  unfold Examples.empty_results.
  rewrite !lookup_insert_Some, lookup_singleton_Some.
  intros H.
  repeat (destruct H as [[_ <-]|[_ H]]; [eexists; split; reflexivity|]).
  destruct H as [_ <-]. eexists. split; reflexivity.
Qed.

Lemma empty_input_slices_witness :
  Metrics.parseGPUMetrics (R := Reference.runtime) Examples.empty_results =
    Done (nil_slice, None) ∧
  Processes.parseGPUProcesses (R := Reference.runtime) Examples.empty_results =
    Done (mk_slice [], None).
Proof.
  apply (empty_input_slices (R := Reference.runtime) (GoRuntimeLaws0 := reference_laws)
           Examples.empty_results empty_results_lookup).
Defined.

Lemma scenario_labels_canonical mp :
  mp ∈ points_in_order (R := Reference.runtime) Examples.scenario →
  MetricSpec.gpu_id mp.2 = "" ∨ MetricSpec.canonical_index (MetricSpec.gpu_id mp.2).
Proof.
  rewrite (scenario_points_perm (R := Reference.runtime) (GoRuntimeLaws0 := reference_laws)).
  revert mp. apply scenario_point_cases.
  - intros mt value _ _. right. exists 0%Z. split; [done | reflexivity].
  - intros mt value _ _. by left.
Qed.

Lemma gpu_index_round_trip_witness :
  ∃ out,
    Metrics.parseGPUMetrics (R := Reference.runtime) Examples.scenario = Done (out, None) ∧
    ∀ r, r ∈ elems out →
      GPUMetrics.NodeName r ≠ "" ∧
      ∃ k first,
        first_where (MetricSpec.stores_at k)
          (points_in_order (R := Reference.runtime) Examples.scenario) first ∧
        MetricSpec.hostname first.2 = GPUMetrics.NodeName r ∧
        Atoi (MetricSpec.gpu_id first.2) = (GPUMetrics.GPUIndex r, false) ∧
        Itoa (GPUMetrics.GPUIndex r) = MetricSpec.gpu_id first.2.
Proof.
  apply (gpu_index_round_trip (R := Reference.runtime) (GoRuntimeLaws0 := reference_laws)
           Examples.scenario
           scenario_no_nil
           scenario_labels_canonical).
Defined.

Lemma empty_identity_label_is_skipped_witness :
  (¬ ProcessSpec.identified (Examples.point (Examples.process_labels "node1" "0" "") "2048") ∧
   Processes.process_point (R := Reference.runtime) "gpu_memory" Processes.initial
     (Examples.point (Examples.process_labels "node1" "0" "") "2048") =
   Done Processes.initial) ∧
  (Atoi "abc" = (0%Z, true) ∧ Atoi "12x" = (0%Z, true)) ∧
  ∃ st' r,
    Processes.process_point (R := Reference.runtime) "gpu_memory" Processes.initial
      (Examples.point (Examples.process_labels "node1" "abc" "12x") "2048") = Done st' ∧
    Processes.processMap st' !! "node1:abc:12x" = Some r ∧
    GPUProcess.NodeName r = "node1" ∧
    GPUProcess.GPUIndex r = 0%Z ∧
    GPUProcess.PID r = 0%Z.
Proof.
  assert (¬ ProcessSpec.identified
            (Examples.point (Examples.process_labels "node1" "0" "") "2048")) as Hpid.
  { unfold ProcessSpec.identified. intros (_ & _ & Hpid). by apply Hpid. }
  destruct (empty_identity_label_is_skipped (R := Reference.runtime)
              (GoRuntimeLaws0 := reference_laws))
    as (Hskip & _ & _ & Hstore & _).
  split; [split; [exact Hpid | by apply Hskip]|].
  split; [split; reflexivity|].
  destruct (Hstore "gpu_memory" Processes.initial
              (Examples.point (Examples.process_labels "node1" "abc" "12x") "2048")
              (Reference.Build_decimal false 2048 0))
    as (st' & r & Hrun & Hr & Hnew).
  - unfold ProcessSpec.identified. split_and!; discriminate.
  - reflexivity.
  - exists st', r. split; [exact Hrun|]. split; [exact Hr|]. by apply Hnew.
Defined.

Lemma scenario_record_witness :
  ∃ r,
    Metrics.parseGPUMetrics (R := Reference.runtime) Examples.scenario =
      Done (mk_slice [r], None) ∧
    GPUMetrics.NodeName r = "node1" ∧
    GPUMetrics.GPUIndex r = 0%Z ∧
    GPUMetrics.GPUMemoryFree r = 8192%Z ∧
    GPUMetrics.GPUMemoryUsed r = 8192%Z ∧
    GPUMetrics.GPUMemoryTotal r = 16384%Z ∧
    GPUMetrics.GPUUtilization r = 75%Z ∧
    GPUMetrics.GPUTemperature r = 65%Z ∧
    GPUMetrics.CPUUtilization r = 25%Z ∧
    GPUMetrics.MemoryUtilization r = 50%Z.
Proof.
  apply (scenario_record (R := Reference.runtime) (GoRuntimeLaws0 := reference_laws));
    reflexivity.
Defined.

Lemma query_failure_fails_call_witness :
  (∃ out, Metrics.GetGPUMetrics (R := Reference.runtime) Examples.empty_backend
            (map_to_list Metrics.queries) = Done (out, None)) ∧
  (∃ name err, Metrics.GetGPUMetrics (R := Reference.runtime) Examples.failing_backend
            (map_to_list Metrics.queries) = Done (nil_slice, Some (query_failed name err))).
Proof.
  split.
  - apply (query_failure_fails_call (R := Reference.runtime)
             (GoRuntimeLaws0 := reference_laws) Examples.empty_backend
             (map_to_list Metrics.queries) (map_to_list Processes.queries)
             (reflexivity _) (reflexivity _)).
    intros name query _. by eexists.
  - destruct (query_failure_fails_call (R := Reference.runtime)
                (GoRuntimeLaws0 := reference_laws) Examples.failing_backend
                (map_to_list Metrics.queries) (map_to_list Processes.queries)
                (reflexivity _) (reflexivity _))
      as [[Hfail _] _].
    destruct (Hfail "gpu_mem_free" "gpu_metrics_free_memory"
                (errorString "executing request: connection refused"))
      as (name & query & err & _ & _ & Hcall); [reflexivity | reflexivity |].
    by exists name, err.
Defined.

Lemma process_results_types points name :
  is_Some (Examples.process_results points !! name) → name = "gpu_memory".
Proof.
  unfold Examples.process_results. intros [r Hr].
  by apply lookup_singleton_Some in Hr as [<- _].
Qed.

Lemma process_record_origin_witness :
  ∃ out,
    Processes.parseGPUProcesses (R := Reference.runtime)
      (Examples.process_results
         [ Examples.point (Examples.process_labels "node1" "0" "1234") "1024";
           Examples.point (Examples.process_labels "node1" "0" "1234") "2048" ]) =
    Done (mk_slice out, None) ∧
    ∀ r, r ∈ out →
      ∃ k first last v,
        first_where (ProcessSpec.stores_at k)
          (points_in_order (R := Reference.runtime)
             (Examples.process_results
                [ Examples.point (Examples.process_labels "node1" "0" "1234") "1024";
                  Examples.point (Examples.process_labels "node1" "0" "1234") "2048" ]))
          first ∧
        last_where (ProcessSpec.stores_at k)
          (points_in_order (R := Reference.runtime)
             (Examples.process_results
                [ Examples.point (Examples.process_labels "node1" "0" "1234") "1024";
                  Examples.point (Examples.process_labels "node1" "0" "1234") "2048" ]))
          last ∧
        parsed_value last.2 = Some v ∧
        GPUProcess.GPUMemory r = int_of_float64 v ∧
        GPUProcess.ProcessName r = label (Metric first.2) "process_name" ∧
        GPUProcess.User r = label (Metric first.2) "user" ∧
        GPUProcess.Command r = label (Metric first.2) "command".
Proof.
  apply (process_record_origin (R := Reference.runtime) (GoRuntimeLaws0 := reference_laws)).
  apply process_results_types.
Defined.

Lemma malformed_value_is_skipped_witness :
  malformed_value
    {| Metric := list_to_map (Examples.process_labels "node1" "0" "1234");
       Value := [AnyNumber 1640995200] |} ∧
  ∀ mt st,
    Metrics.metrics_point (R := Reference.runtime) mt st
      {| Metric := list_to_map (Examples.process_labels "node1" "0" "1234");
         Value := [AnyNumber 1640995200] |} = Done st.
Proof.
  assert (malformed_value
            {| Metric := list_to_map (Examples.process_labels "node1" "0" "1234");
               Value := [AnyNumber 1640995200] |}) as Hshort.
  { left. simpl. lia. }
  split; [exact Hshort|].
  apply (malformed_value_is_skipped (R := Reference.runtime) _ Hshort).
Defined.

Lemma second_pass_frame_witness :
  dom (Metrics.apply_node_utilization (R := Reference.runtime)
         (Metrics.nodeUtilization
            (MetricSpec.run (points_in_order (R := Reference.runtime) Examples.scenario)))
         (Metrics.metricsMap
            (MetricSpec.run (points_in_order (R := Reference.runtime) Examples.scenario)))) =
  dom (Metrics.metricsMap
         (MetricSpec.run (points_in_order (R := Reference.runtime) Examples.scenario))).
Proof.
  apply (second_pass_frame (R := Reference.runtime) (GoRuntimeLaws0 := reference_laws)
           Examples.scenario
           scenario_no_nil).
Defined.

(** * Where the specification and the code part *)

(** C2: the only point of its key has a value that does not parse, and no
    record is emitted for it, with zero memory or otherwise. *)
Lemma unparseable_only_point_no_record :
  ParseFloat (GoRuntime := Reference.runtime) "invalid_number" = None ∧
  Processes.parseGPUProcesses (R := Reference.runtime)
    (Examples.process_results
       [ Examples.point (Examples.process_labels "node1" "0" "1234") "invalid_number" ]) =
  Done (mk_slice [], None).
Proof. split; vm_compute; reflexivity. Qed.

(** C5: the gpu_id label is no integer (Atoi reports an error), and the
    point is not skipped: a record with GPU index 0 is emitted. *)
Lemma unparseable_gpu_id_not_skipped :
  Atoi "abc" = (0%Z, true) ∧
  Processes.parseGPUProcesses (R := Reference.runtime)
    (Examples.process_results
       [ Examples.point (Examples.process_labels "node1" "abc" "1234") "2048" ]) =
  Done (mk_slice
          [ {| GPUProcess.NodeName := "node1";
               GPUProcess.GPUIndex := 0;
               GPUProcess.PID := 1234;
               GPUProcess.ProcessName := "python";
               GPUProcess.User := "keito";
               GPUProcess.Command := "python train.py";
               GPUProcess.GPUMemory := 2048;
               GPUProcess.Timestamp := "2025-01-01T09:00:00+09:00" |} ], None).
Proof. split; vm_compute; reflexivity. Qed.

(** The same for the pid label: the record carries the pid 0. *)
Example unparseable_pid_not_skipped :
  Atoi "12x" = (0%Z, true) ∧
  Processes.parseGPUProcesses (R := Reference.runtime)
    (Examples.process_results
       [ Examples.point (Examples.process_labels "node1" "0" "12x") "2048" ]) =
  Done (mk_slice
          [ {| GPUProcess.NodeName := "node1";
               GPUProcess.GPUIndex := 0;
               GPUProcess.PID := 0;
               GPUProcess.ProcessName := "python";
               GPUProcess.User := "keito";
               GPUProcess.Command := "python train.py";
               GPUProcess.GPUMemory := 2048;
               GPUProcess.Timestamp := "2025-01-01T09:00:00+09:00" |} ], None).
Proof. split; vm_compute; reflexivity. Qed.

(** * The tests of the repository, evaluated *)

(** "processes with same PID on different GPUs": two records, in order. *)
Example same_pid_on_two_gpus :
  Processes.parseGPUProcesses (R := Reference.runtime)
    (Examples.process_results
       [ Examples.point (Examples.process_labels "node1" "1" "1234") "2048";
         Examples.point (Examples.process_labels "node1" "0" "1234") "4096" ]) =
  Done (mk_slice
          [ {| GPUProcess.NodeName := "node1";
               GPUProcess.GPUIndex := 0;
               GPUProcess.PID := 1234;
               GPUProcess.ProcessName := "python";
               GPUProcess.User := "keito";
               GPUProcess.Command := "python train.py";
               GPUProcess.GPUMemory := 4096;
               GPUProcess.Timestamp := "2025-01-01T09:00:00+09:00" |};
            {| GPUProcess.NodeName := "node1";
               GPUProcess.GPUIndex := 1;
               GPUProcess.PID := 1234;
               GPUProcess.ProcessName := "python";
               GPUProcess.User := "keito";
               GPUProcess.Command := "python train.py";
               GPUProcess.GPUMemory := 2048;
               GPUProcess.Timestamp := "2025-01-01T09:00:00+09:00" |} ], None).
Proof. vm_compute. reflexivity. Qed.

(** "missing value array": the value pair has one element. *)
Example missing_value_array :
  Processes.parseGPUProcesses (R := Reference.runtime)
    (Examples.process_results
       [ {| Metric := list_to_map (Examples.process_labels "node1" "0" "1234");
            Value := [AnyNumber 1640995200] |} ]) =
  Done (mk_slice [], None).
Proof. vm_compute. reflexivity. Qed.

(** * Further properties of the correlators *)

(** ** Keys *)

Lemma colon_free_split a a' b b' :
  Keys.colon_free a = true → Keys.colon_free a' = true →
  a +:+ ":" +:+ b = a' +:+ ":" +:+ b' → a = a' ∧ b = b'.
Proof.
  revert a'. induction a as [|c a IH]; intros [|c' a'] Ha Ha' Heq; simpl in *.
  - injection Heq as Heq. simpl in Heq. by subst.
  - injection Heq as <- _. by rewrite Ascii.eqb_refl in Ha'.
  - injection Heq as -> _. by rewrite Ascii.eqb_refl in Ha.
  - injection Heq as -> Heq.
    apply andb_prop in Ha as [_ Ha]. apply andb_prop in Ha' as [_ Ha'].
    destruct (IH a' Ha Ha' Heq) as [-> ->]. done.
Qed.

(** X1. Two points whose hostname (and, for processes, gpu_id) labels
    hold no colon have the same map key only if they agree on hostname
    and gpu_id (and pid): the correlators never merge the records of two
    different identities of that kind. *)
Theorem key_injective (p q : Point) :
  Keys.colon_free (MetricSpec.hostname p) = true →
  Keys.colon_free (MetricSpec.hostname q) = true →
  (MetricSpec.key_of p = MetricSpec.key_of q →
     MetricSpec.hostname p = MetricSpec.hostname q ∧
     MetricSpec.gpu_id p = MetricSpec.gpu_id q) ∧
  (Keys.colon_free (ProcessSpec.gpu_id p) = true →
   Keys.colon_free (ProcessSpec.gpu_id q) = true →
   ProcessSpec.key_of p = ProcessSpec.key_of q →
     ProcessSpec.hostname p = ProcessSpec.hostname q ∧
     ProcessSpec.gpu_id p = ProcessSpec.gpu_id q ∧
     ProcessSpec.pid p = ProcessSpec.pid q).
Proof.
  intros Hp Hq. split.
  - intros Hkey. by apply colon_free_split.
  - intros Hgp Hgq Hkey. unfold ProcessSpec.key_of in Hkey.
    apply colon_free_split in Hkey as [Hhost Hrest]; [|done..].
    apply colon_free_split in Hrest as [Hgpu Hpid]; done.
Qed.

Lemma key_injective_witness :
  Keys.colon_free (MetricSpec.hostname (Examples.point Examples.gpu_labels "1")) = true ∧
  (MetricSpec.key_of (Examples.point Examples.gpu_labels "1") =
   MetricSpec.key_of (Examples.point Examples.gpu_labels "2") →
   MetricSpec.hostname (Examples.point Examples.gpu_labels "1") =
   MetricSpec.hostname (Examples.point Examples.gpu_labels "2") ∧
   MetricSpec.gpu_id (Examples.point Examples.gpu_labels "1") =
   MetricSpec.gpu_id (Examples.point Examples.gpu_labels "2")).
Proof.
  split; [reflexivity|].
  apply (key_injective (Examples.point Examples.gpu_labels "1")
           (Examples.point Examples.gpu_labels "2")); reflexivity.
Defined.

(** With a colon in the hostname two identities do share a key. *)
Example key_collision :
  MetricSpec.key_of (Examples.point [("hostname", "a:b"); ("gpu_id", "c")] "1") =
  MetricSpec.key_of (Examples.point [("hostname", "a"); ("gpu_id", "b:c")] "1").
Proof. reflexivity. Qed.

(** ** The number of records *)

Section record_count.
Context {R : GoRuntime} `{!GoRuntimeLaws R}.

Lemma process_keys_elem pts k :
  k ∈ Keys.process_keys pts ↔ ∃ mp, mp ∈ pts ∧ ProcessSpec.stores_at k mp.
Proof.
  unfold Keys.process_keys, ProcessSpec.stores_at.
  rewrite elem_of_list_to_set, list_elem_of_omap. split.
  - intros (mp & Hin & Hk). exists mp. split; [done|].
    destruct (ProcessSpec.stores mp.2) as [[k' v]|]; [|done].
    simpl in Hk. injection Hk as ->. by exists v.
  - intros (mp & Hin & v & Hv). exists mp. split; [done|]. by rewrite Hv.
Qed.

Lemma metric_keys_elem pts k :
  k ∈ Keys.metric_keys pts ↔ ∃ mp, mp ∈ pts ∧ MetricSpec.stores_at k mp.
Proof.
  unfold Keys.metric_keys, MetricSpec.stores_at.
  rewrite elem_of_list_to_set, list_elem_of_omap. split.
  - intros (mp & Hin & Hk). exists mp. split; [done|].
    destruct (MetricSpec.stores mp) as [[k' v]|]; [|done].
    simpl in Hk. injection Hk as ->. by exists v.
  - intros (mp & Hin & v & Hv). exists mp. split; [done|]. by rewrite Hv.
Qed.

(** The keys of [processMap] are the keys at which a point stored. *)
Lemma process_run_dom pts :
  dom (Processes.processMap (ProcessSpec.run pts)) = Keys.process_keys pts.
Proof.
  apply set_eq. intros k. rewrite elem_of_dom, process_keys_elem.
  pose proof (run_lookup pts k) as Hinv.
  destruct (Processes.processMap (ProcessSpec.run pts) !! k) as [r|]; split.
  - intros _. destruct Hinv as (first & _ & _ & _ & Hfirst & _).
    exists first. by apply first_where_elem in Hfirst.
  - intros _. by eexists.
  - by intros [? ?].
  - intros (mp & Hin & Hat). rewrite Forall_forall in Hinv. by destruct (Hinv mp Hin).
Qed.

Lemma metrics_run_dom pts :
  dom (Metrics.metricsMap (MetricSpec.run pts)) = Keys.metric_keys pts.
Proof.
  apply set_eq. intros k. rewrite elem_of_dom, metric_keys_elem.
  pose proof (metrics_run_lookup pts k) as Hinv.
  destruct (Metrics.metricsMap (MetricSpec.run pts) !! k) as [r|]; split.
  - intros _. destruct Hinv as [(first & Hfirst & _) _].
    exists first. by apply first_where_elem in Hfirst.
  - intros _. by eexists.
  - by intros [? ?].
  - intros (mp & Hin & Hat). rewrite Forall_forall in Hinv. by destruct (Hinv mp Hin).
Qed.

Lemma output_length (processMap : gmap string GPUProcess.t) :
  length (ProcessSpec.output processMap) = size processMap.
Proof. by rewrite output_perm, length_fmap, length_map_to_list. Qed.

Lemma to_slice_length (metricsMap : gmap string GPUMetrics.t) :
  length (elems (Metrics.to_slice metricsMap)) = size metricsMap.
Proof. by rewrite to_slice_elems, length_fmap, length_map_to_list. Qed.
End record_count.

(** X2. Both correlators emit one record per key: the number of records
    parseGPUProcesses (parseGPUMetrics) returns is the number of distinct
    keys under which the points of the input store, however many points
    share a key and in whatever order they are visited. *)
Theorem one_record_per_key {R : GoRuntime} `{!GoRuntimeLaws R}
    (results : gmap string (option PrometheusResponse)) :
  (∃ out, Processes.parseGPUProcesses results = Done (mk_slice out, None) ∧
          length out = size (Keys.process_keys (points_in_order results))) ∧
  (no_nil results →
   ∃ out, Metrics.parseGPUMetrics results = Done (out, None) ∧
          length (elems out) = size (Keys.metric_keys (points_in_order results))).
Proof.
  split.
  - eexists. split; [apply parseGPUProcesses_returns|].
    by rewrite output_length, <- process_run_dom, size_dom.
  - intros Hnn. eexists. split; [by apply parseGPUMetrics_returns|].
    by rewrite to_slice_length, map_size_fmap, <- metrics_run_dom, size_dom.
Qed.

Lemma one_record_per_key_witness :
  ∃ out,
    Processes.parseGPUProcesses (R := Reference.runtime)
      (Examples.process_results
         [ Examples.point (Examples.process_labels "node1" "0" "1234") "1024";
           Examples.point (Examples.process_labels "node1" "1" "1234") "2048";
           Examples.point (Examples.process_labels "node1" "0" "1234") "4096" ]) =
    Done (mk_slice out, None) ∧
    length out =
    size (Keys.process_keys
            (points_in_order (R := Reference.runtime)
               (Examples.process_results
                  [ Examples.point (Examples.process_labels "node1" "0" "1234") "1024";
                    Examples.point (Examples.process_labels "node1" "1" "1234") "2048";
                    Examples.point (Examples.process_labels "node1" "0" "1234") "4096" ]))).
Proof.
  apply (one_record_per_key (R := Reference.runtime) (GoRuntimeLaws0 := reference_laws)).
Defined.

(** ** Where the fields of a GPU record come from *)

Section metric_fields.
Context {R : GoRuntime} `{!GoRuntimeLaws R}.
Import MetricSpec.

(** The second pass keeps the GPU name and the five routed fields. *)
Lemma with_node_utilization_fields nu r f :
  GPUMetrics.GPUName (with_node_utilization nu r) = GPUMetrics.GPUName r ∧
  field_get f (with_node_utilization nu r) = field_get f r.
Proof. unfold with_node_utilization. destruct (nu !! _); by destruct f. Qed.

(** An emitted record is a record of the first pass after the second. *)
Lemma emitted_record results r :
  r ∈ elems (Metrics.to_slice
               (with_node_utilization
                  (Metrics.nodeUtilization (run (points_in_order results)))
                  <$> Metrics.metricsMap (run (points_in_order results)))) →
  ∃ k r0, Metrics.metricsMap (run (points_in_order results)) !! k = Some r0 ∧
          r = with_node_utilization
                (Metrics.nodeUtilization (run (points_in_order results))) r0.
Proof.
  intros (k & Hk)%to_slice_elem. rewrite lookup_fmap in Hk.
  destruct (Metrics.metricsMap _ !! k) as [r0|] eqn:Hr0; [|done].
  simpl in Hk. injection Hk as <-. by exists k, r0.
Qed.
End metric_fields.

(** X3. Every record parseGPUMetrics emits (no response nil) was created
    by the first point that stored under its key: node name, GPU index
    and GPU name are those of that point.  Each of its five routed fields
    (free, used and total memory, utilization, temperature) holds the
    conversion of the value of the last point that wrote that field of
    that record, and zero when no point did. *)
Theorem metric_record_origin {R : GoRuntime} `{!GoRuntimeLaws R}
    (results : gmap string (option PrometheusResponse)) :
  no_nil results →
  ∃ out, Metrics.parseGPUMetrics results = Done (out, None) ∧
    ∀ r, r ∈ elems out →
      ∃ k first,
        first_where (MetricSpec.stores_at k) (points_in_order results) first ∧
        GPUMetrics.NodeName r = MetricSpec.hostname first.2 ∧
        GPUMetrics.GPUIndex r = (Atoi (MetricSpec.gpu_id first.2)).1 ∧
        GPUMetrics.GPUName r = MetricSpec.gpu_name first.2 ∧
        ∀ f, last_written (MetricSpec.writes f k) MetricSpec.written_value
               (points_in_order results) 0%Z (MetricSpec.field_get f r).
Proof.
  intros Hnn. eexists. split; [by apply parseGPUMetrics_returns|].
  intros r (k & r0 & Hr0 & ->)%emitted_record.
  pose proof (metrics_run_lookup (points_in_order results) k) as Hinv.
  rewrite Hr0 in Hinv.
  destruct Hinv as [(first & Hfirst & (Hnode & Hidx & Hname & _)) Hfields].
  exists k, first.
  destruct (with_node_utilization_identity
              (Metrics.nodeUtilization (MetricSpec.run (points_in_order results))) r0)
    as [-> ->].
  split_and!; [done..| |].
  - by destruct (with_node_utilization_fields
                   (Metrics.nodeUtilization (MetricSpec.run (points_in_order results)))
                   r0 MetricSpec.Free) as [-> _].
  - intros f.
    destruct (with_node_utilization_fields
                (Metrics.nodeUtilization (MetricSpec.run (points_in_order results)))
                r0 f) as [_ ->].
    apply Hfields.
Qed.

Lemma metric_record_origin_witness :
  ∃ out,
    Metrics.parseGPUMetrics (R := Reference.runtime) Examples.scenario = Done (out, None) ∧
    ∀ r, r ∈ elems out →
      ∃ k first,
        first_where (MetricSpec.stores_at k)
          (points_in_order (R := Reference.runtime) Examples.scenario) first ∧
        GPUMetrics.NodeName r = MetricSpec.hostname first.2 ∧
        GPUMetrics.GPUIndex r = (Atoi (MetricSpec.gpu_id first.2)).1 ∧
        GPUMetrics.GPUName r = MetricSpec.gpu_name first.2 ∧
        ∀ f, last_written (MetricSpec.writes f k) MetricSpec.written_value
               (points_in_order (R := Reference.runtime) Examples.scenario) 0%Z
               (MetricSpec.field_get f r).
Proof.
  apply (metric_record_origin (R := Reference.runtime) (GoRuntimeLaws0 := reference_laws)
           Examples.scenario scenario_no_nil).
Defined.

(** X4. In the output of parseGPUMetrics (no response nil) the CPU and
    memory utilization of a record depend on its node name alone.  When
    no node-scoped point of that node has a value that parses they are
    zero; otherwise they are the conversions of what the last
    cpu_utilization and the last memory_utilization point of the node
    carried (of the float zero for a metric the node has no point of).
    Two records of one node carry the same two values. *)
Theorem node_utilization_shared {R : GoRuntime} `{!GoRuntimeLaws R}
    (results : gmap string (option PrometheusResponse)) :
  no_nil results →
  ∃ out, Metrics.parseGPUMetrics results = Done (out, None) ∧
    (∀ r, r ∈ elems out →
       (Forall (λ mp, ¬ MetricSpec.node_stores_at (GPUMetrics.NodeName r) mp)
          (points_in_order results) ∧
        GPUMetrics.CPUUtilization r = 0%Z ∧ GPUMetrics.MemoryUtilization r = 0%Z) ∨
       (∃ cpu mem,
          last_written (MetricSpec.node_writes MetricSpec.Cpu (GPUMetrics.NodeName r))
            MetricSpec.node_written_value (points_in_order results) float64_zero cpu ∧
          last_written (MetricSpec.node_writes MetricSpec.Mem (GPUMetrics.NodeName r))
            MetricSpec.node_written_value (points_in_order results) float64_zero mem ∧
          GPUMetrics.CPUUtilization r = int_of_float64 cpu ∧
          GPUMetrics.MemoryUtilization r = int_of_float64 mem)) ∧
    (∀ r1 r2, r1 ∈ elems out → r2 ∈ elems out →
       GPUMetrics.NodeName r1 = GPUMetrics.NodeName r2 →
       GPUMetrics.CPUUtilization r1 = GPUMetrics.CPUUtilization r2 ∧
       GPUMetrics.MemoryUtilization r1 = GPUMetrics.MemoryUtilization r2).
Proof.
  intros Hnn. eexists. split; [by apply parseGPUMetrics_returns|].
  set (pts := points_in_order results).
  set (nu := Metrics.nodeUtilization (MetricSpec.run pts)).
  assert (∀ r0 k, Metrics.metricsMap (MetricSpec.run pts) !! k = Some r0 →
            GPUMetrics.CPUUtilization r0 = 0%Z ∧ GPUMetrics.MemoryUtilization r0 = 0%Z)
    as Hzero.
  { intros r0 k Hr0. pose proof (metrics_run_lookup pts k) as Hinv.
    rewrite Hr0 in Hinv. by destruct Hinv as [(first & _ & (_ & _ & _ & ? & ?)) _]. }
  split.
  - intros r (k & r0 & Hr0 & ->)%emitted_record. fold pts nu.
    destruct (with_node_utilization_identity nu r0) as [-> _].
    pose proof (node_run_lookup pts (GPUMetrics.NodeName r0)) as Hinv. fold nu in Hinv.
    unfold MetricSpec.with_node_utilization.
    destruct (nu !! GPUMetrics.NodeName r0) as [util|].
    + right. exists (Metrics.cpuUtilization util), (Metrics.memoryUtilization util).
      split_and!; [apply (Hinv MetricSpec.Cpu) | apply (Hinv MetricSpec.Mem) | done..].
    + left. destruct (Hzero r0 k Hr0) as [? ?]. done.
  - intros r1 r2 (k1 & r01 & Hr01 & ->)%emitted_record
      (k2 & r02 & Hr02 & ->)%emitted_record. fold pts nu.
    destruct (with_node_utilization_identity nu r01) as [-> _].
    destruct (with_node_utilization_identity nu r02) as [-> _].
    intros Hnode. unfold MetricSpec.with_node_utilization. rewrite Hnode.
    destruct (nu !! GPUMetrics.NodeName r02); [done|].
    destruct (Hzero r01 k1 Hr01) as [-> ->], (Hzero r02 k2 Hr02) as [-> ->]. done.
Qed.

Lemma node_utilization_shared_witness :
  ∃ out,
    Metrics.parseGPUMetrics (R := Reference.runtime) Examples.scenario = Done (out, None) ∧
    ∀ r1 r2, r1 ∈ elems out → r2 ∈ elems out →
      GPUMetrics.NodeName r1 = GPUMetrics.NodeName r2 →
      GPUMetrics.CPUUtilization r1 = GPUMetrics.CPUUtilization r2 ∧
      GPUMetrics.MemoryUtilization r1 = GPUMetrics.MemoryUtilization r2.
Proof.
  destruct (node_utilization_shared (R := Reference.runtime)
              (GoRuntimeLaws0 := reference_laws) Examples.scenario scenario_no_nil)
    as (out & Hout & _ & Hshared).
  exists out. split; [exact Hout | exact Hshared].
Defined.

(** ** Points that reach no map *)

Section metric_skips.
Context {R : GoRuntime}.
Import MetricSpec.

(** A point that reaches neither map leaves the whole state as it is,
    the clock included. *)
Lemma metrics_point_skip mt st p :
  ¬ Keys.contributes (mt, p) → Metrics.metrics_point mt st p = Done st.
Proof.
  unfold Keys.contributes. intros Hno.
  assert (stores (mt, p) = None ∧ node_stores (mt, p) = None) as [Hs Hn].
  { destruct (stores (mt, p)), (node_stores (mt, p)); try done;
      exfalso; apply Hno; eauto. }
  destruct (parsed_value p) as [v|] eqn:Hv; [|by apply metrics_point_no_value].
  unfold Metrics.metrics_point. fold (hostname p) (gpu_id p) (node_scoped mt).
  destruct (decide (hostname p = "")) as [Hh|Hh]; [done|].
  destruct (decide (length (Value p) < 2)) as [Hlen|Hlen]; [done|].
  destruct (index_guarded _ Hlen) as (x & Hx1 & ->). simpl.
  destruct (as_string x) as [s|]; [|done].
  destruct (ParseFloat s) as [value|]; [|done].
  destruct (decide (node_scoped mt)) as [Hm|Hm].
  - exfalso. unfold node_stores in Hn. simpl in Hn.
    rewrite decide_True, Hv in Hn by done. done.
  - destruct (decide (gpu_id p = "")) as [Hg|Hg]; [done|].
    exfalso. unfold stores in Hs. simpl in Hs.
    rewrite decide_True, Hv in Hs by done. done.
Qed.

Lemma metrics_response_keep st entry :
  Metrics.metrics_response st (Keys.keep_contributing entry) =
  Metrics.metrics_response st entry.
Proof.
  destruct entry as [mt [resp|]]; [|done].
  unfold Metrics.metrics_response, Keys.keep_contributing. simpl.
  apply (for_each_filter_skip (λ p, Keys.contributes (mt, p))).
  intros st' p. apply metrics_point_skip.
Qed.
End metric_skips.

(** X5. In parseGPUMetrics a point that reaches neither map (no
    hostname, no value that parses, or, for a per-GPU metric, no gpu_id)
    has no effect at all: the state after it is the state before it, and
    the two loops give the same state with and without such points. *)
Theorem metric_skips_have_no_effect {R : GoRuntime} :
  (∀ mt st p, ¬ Keys.contributes (mt, p) → Metrics.metrics_point mt st p = Done st) ∧
  (∀ mt st p, MetricSpec.hostname p = "" → Metrics.metrics_point mt st p = Done st) ∧
  (∀ st entries,
     for_each Metrics.metrics_response st (Keys.keep_contributing <$> entries) =
     for_each Metrics.metrics_response st entries).
Proof.
  split_and!.
  - apply metrics_point_skip.
  - intros mt st p Hh. apply metrics_point_skip. unfold Keys.contributes.
    intros [[[k v] Hs]|[[n v] Hn]].
    + apply stores_Some in Hs as (? & _). done.
    + apply node_stores_Some in Hn as (? & _). done.
  - intros st entries. revert st.
    induction entries as [|entry entries IH]; intros st; simpl; [done|].
    rewrite metrics_response_keep.
    destruct (Metrics.metrics_response st entry); simpl; [apply IH | done].
Qed.

(** ** The order of the processes, for all pairs *)

Section process_pairs.
Context {R : GoRuntime} `{!GoRuntimeLaws R}.

Lemma not_less_transitive :
  Transitive (λ a b : GPUProcess.t, Processes.less b a = false).
Proof.
  intros a b c Hab Hbc.
  apply (swo_incomp Processes.less less_strict_weak_order c b a); done.
Qed.

Lemma StronglySorted_pairs {A} (Rel : relation A) (l : list A) i j a b :
  StronglySorted Rel l → i < j → l !! i = Some a → l !! j = Some b → Rel a b.
Proof.
  intros Hs. revert i j. induction Hs as [|x l Hs IH Hall]; intros i j Hij Ha Hb; [done|].
  destruct j as [|j]; [lia|]. simpl in Hb.
  destruct i as [|i]; simpl in Ha.
  - injection Ha as ->. rewrite Forall_forall in Hall.
    apply Hall. by eapply list_elem_of_lookup_2.
  - apply (IH i j); [lia | done..].
Qed.

Lemma output_pairs (processMap : gmap string GPUProcess.t) i j a b :
  i < j → ProcessSpec.output processMap !! i = Some a →
  ProcessSpec.output processMap !! j = Some b → ProcessSpec.key_le a b.
Proof.
  intros Hij Ha Hb. apply not_less_key_le.
  eapply (StronglySorted_pairs (λ a b, Processes.less b a = false)); [|done..].
  apply (Sorted_StronglySorted _ (Transitive0 := not_less_transitive)).
  apply output_sorted.
Qed.
End process_pairs.

(** X6. The slice parseGPUProcesses returns holds exactly the records of
    its record map, each as often as the map holds it, and every record
    in it is at or below every later one in the order of (node name, GPU
    index, pid). *)
Theorem processes_sorted_pairs {R : GoRuntime} `{!GoRuntimeLaws R}
    (results : gmap string (option PrometheusResponse)) :
  ∃ out, Processes.parseGPUProcesses results = Done (mk_slice out, None) ∧
    out ≡ₚ (map_to_list
              (Processes.processMap (ProcessSpec.run (points_in_order results)))).*2 ∧
    ∀ i j a b, i < j → out !! i = Some a → out !! j = Some b → ProcessSpec.key_le a b.
Proof.
  eexists. split; [apply parseGPUProcesses_returns|]. split.
  - apply output_perm.
  - apply output_pairs.
Qed.

Lemma processes_sorted_pairs_witness :
  ∃ out,
    Processes.parseGPUProcesses (R := Reference.runtime)
      (Examples.process_results
         [ Examples.point (Examples.process_labels "node2" "1" "7") "100";
           Examples.point (Examples.process_labels "node1" "1" "1234") "2048";
           Examples.point (Examples.process_labels "node1" "0" "1234") "4096" ]) =
    Done (mk_slice out, None) ∧
    ∀ i j a b, i < j → out !! i = Some a → out !! j = Some b → ProcessSpec.key_le a b.
Proof.
  destruct (processes_sorted_pairs (R := Reference.runtime)
              (GoRuntimeLaws0 := reference_laws)
              (Examples.process_results
                 [ Examples.point (Examples.process_labels "node2" "1" "7") "100";
                   Examples.point (Examples.process_labels "node1" "1" "1234") "2048";
                   Examples.point (Examples.process_labels "node1" "0" "1234") "4096" ]))
    as (out & Hout & _ & Hpairs).
  exists out. split; [exact Hout | exact Hpairs].
Defined.

(** ** One record per identity *)

Section identities.
Context {R : GoRuntime} `{!GoRuntimeLaws R}.

Lemma process_stores_Some p k v :
  ProcessSpec.stores p = Some (k, v) ↔
  ProcessSpec.identified p ∧ k = ProcessSpec.key_of p ∧ parsed_value p = Some v.
Proof.
  unfold ProcessSpec.stores. destruct (decide (ProcessSpec.identified p)) as [Hid|Hid].
  - destruct (parsed_value p) as [v'|]; simpl; split.
    + intros [= <- <-]. done.
    + intros (_ & -> & [= ->]). done.
    + done.
    + by intros (_ & _ & ?).
  - split; [done|]. by intros (? & _).
Qed.

Lemma canonical_round_trip s :
  s ≠ "" → s = "" ∨ MetricSpec.canonical_index s → Itoa (Atoi s).1 = s.
Proof.
  intros Hne [?|(n & Hn & ->)]; [done|]. by rewrite Atoi_Itoa.
Qed.

(** Under canonical labels a process record renders to its map key. *)
Lemma process_identity_key pts k r :
  Keys.canonical_labels pts →
  Processes.processMap (ProcessSpec.run pts) !! k = Some r →
  Keys.process_identity r = k.
Proof.
  intros Hcanon Hr. pose proof (run_lookup pts k) as Hinv. rewrite Hr in Hinv.
  destruct Hinv as (first & _ & _ & now & Hfirst & _ & _ & Hnew & _).
  apply first_where_elem in Hfirst as [Hin (v & Hv)].
  apply process_stores_Some in Hv as ((_ & Hgpu & Hpid) & -> & _).
  destruct (Hcanon first Hin) as [Hcg Hcp].
  unfold Keys.process_identity, ProcessSpec.key_of.
  apply (f_equal GPUProcess.NodeName) in Hnew as Hnode.
  apply (f_equal GPUProcess.GPUIndex) in Hnew as Hidx.
  apply (f_equal GPUProcess.PID) in Hnew as Hp.
  simpl in Hnode, Hidx, Hp. rewrite Hnode, Hidx, Hp.
  by rewrite !canonical_round_trip.
Qed.

(** Under canonical labels a GPU record renders to its map key. *)
Lemma metric_identity_key pts k r :
  (∀ mp, mp ∈ pts →
     MetricSpec.gpu_id mp.2 = "" ∨ MetricSpec.canonical_index (MetricSpec.gpu_id mp.2)) →
  Metrics.metricsMap (MetricSpec.run pts) !! k = Some r →
  Keys.metric_identity r = k.
Proof.
  intros Hcanon Hr. pose proof (metrics_run_lookup pts k) as Hinv. rewrite Hr in Hinv.
  destruct Hinv as [(first & Hfirst & (Hnode & Hidx & _)) _].
  apply first_where_elem in Hfirst as [Hin (v & Hv)].
  apply stores_Some in Hv as (_ & _ & Hgpu & -> & _).
  unfold Keys.metric_identity, MetricSpec.key_of. rewrite Hnode, Hidx.
  by rewrite canonical_round_trip by auto.
Qed.

(** The keys of the entries of a map, read off the values. *)
Lemma map_to_list_rendered {A} (render : A → string) (m : gmap string A) :
  (∀ k x, m !! k = Some x → render x = k) →
  NoDup (render <$> (map_to_list m).*2).
Proof.
  intros Hrender.
  replace (render <$> (map_to_list m).*2) with (map_to_list m).*1.
  { apply NoDup_fst_map_to_list. }
  rewrite <- list_fmap_compose. apply Forall_fmap_ext, Forall_forall.
  intros [k x] Hin%elem_of_map_to_list. simpl. by rewrite (Hrender k x).
Qed.

Lemma NoDup_fmap_lookup {A B} (f : A → B) (l : list A) i j a b :
  NoDup (f <$> l) → i ≠ j → l !! i = Some a → l !! j = Some b → f a ≠ f b.
Proof.
  intros Hnd Hij Ha Hb Heq. apply Hij.
  apply (NoDup_lookup (f <$> l) i j (f a) Hnd).
  - by rewrite list_lookup_fmap, Ha.
  - by rewrite list_lookup_fmap, Hb, Heq.
Qed.
End identities.

(** X7. When every gpu_id and pid label renders an integer,
    parseGPUProcesses returns its records in strictly ascending order of
    (node name, GPU index, pid): no two emitted records share the three,
    and each record renders, as node:index:pid, to the key under which
    it was stored. *)
Theorem processes_strictly_sorted {R : GoRuntime} `{!GoRuntimeLaws R}
    (results : gmap string (option PrometheusResponse)) :
  Keys.canonical_labels (points_in_order results) →
  ∃ out, Processes.parseGPUProcesses results = Done (mk_slice out, None) ∧
    (∀ r, r ∈ out →
       Processes.processMap (ProcessSpec.run (points_in_order results))
         !! Keys.process_identity r = Some r) ∧
    ∀ i j a b, i < j → out !! i = Some a → out !! j = Some b → Keys.key_lt a b.
Proof.
  intros Hcanon. eexists. split; [apply parseGPUProcesses_returns|].
  set (m := Processes.processMap (ProcessSpec.run (points_in_order results))).
  assert (∀ k r, m !! k = Some r → Keys.process_identity r = k) as Hkey.
  { intros k r. by apply process_identity_key. }
  split.
  - intros r (k & Hk)%output_elem. by rewrite (Hkey k r Hk).
  - intros i j a b Hij Ha Hb.
    pose proof (output_pairs m i j a b Hij Ha Hb) as Hle.
    assert (Keys.process_identity a ≠ Keys.process_identity b) as Hne.
    { apply (NoDup_fmap_lookup _ (ProcessSpec.output m) i j); [|lia|done..].
      rewrite output_perm. by apply map_to_list_rendered. }
    unfold Keys.key_lt. unfold ProcessSpec.key_le in Hle.
    destruct Hle as [?|[Hnode [?|[Hidx Hpid]]]]; [by left | right; split; [done|by left] |].
    right. split; [done|]. right. split; [done|].
    destruct (decide (GPUProcess.PID a = GPUProcess.PID b)) as [Heq|?]; [|lia].
    exfalso. apply Hne. unfold Keys.process_identity. by rewrite Hnode, Hidx, Heq.
Qed.

Lemma example_labels_canonical :
  Keys.canonical_labels
    (points_in_order (R := Reference.runtime)
       (Examples.process_results
          [ Examples.point (Examples.process_labels "node1" "1" "1234") "2048";
            Examples.point (Examples.process_labels "node1" "0" "1234") "4096" ])).
Proof.
  unfold points_in_order, Examples.process_results.
  rewrite (range_order_singleton (R := Reference.runtime) (GoRuntimeLaws0 := reference_laws)).
  intros mp Hin. cbn in Hin.
  assert (MetricSpec.canonical_index "1234" ∧ MetricSpec.canonical_index "0" ∧
          MetricSpec.canonical_index "1") as (H1234 & H0 & H1).
  { split_and!; [exists 1234%Z | exists 0%Z | exists 1%Z]; by split. }
  repeat (apply elem_of_cons in Hin as [->|Hin]; [split; right; done|]).
  by apply elem_of_nil in Hin.
Qed.

Lemma processes_strictly_sorted_witness :
  ∃ out,
    Processes.parseGPUProcesses (R := Reference.runtime)
      (Examples.process_results
         [ Examples.point (Examples.process_labels "node1" "1" "1234") "2048";
           Examples.point (Examples.process_labels "node1" "0" "1234") "4096" ]) =
    Done (mk_slice out, None) ∧
    ∀ i j a b, i < j → out !! i = Some a → out !! j = Some b → Keys.key_lt a b.
Proof.
  destruct (processes_strictly_sorted (R := Reference.runtime)
              (GoRuntimeLaws0 := reference_laws) _ example_labels_canonical)
    as (out & Hout & _ & Hlt).
  exists out. split; [exact Hout | exact Hlt].
Defined.

(** X8. When every gpu_id label renders an integer, parseGPUMetrics (no
    response nil) emits no two records for the same node name and GPU
    index, and each record renders, as node:index, to the key under
    which the first pass stored it. *)
Theorem metrics_unique_identity {R : GoRuntime} `{!GoRuntimeLaws R}
    (results : gmap string (option PrometheusResponse)) :
  no_nil results →
  (∀ mp, mp ∈ points_in_order results →
         MetricSpec.gpu_id mp.2 = "" ∨ MetricSpec.canonical_index (MetricSpec.gpu_id mp.2)) →
  ∃ out, Metrics.parseGPUMetrics results = Done (out, None) ∧
    (∀ r, r ∈ elems out →
       is_Some (Metrics.metricsMap (MetricSpec.run (points_in_order results))
                  !! Keys.metric_identity r)) ∧
    ∀ i j a b, i ≠ j → elems out !! i = Some a → elems out !! j = Some b →
      ¬ (GPUMetrics.NodeName a = GPUMetrics.NodeName b ∧
         GPUMetrics.GPUIndex a = GPUMetrics.GPUIndex b).
Proof.
  intros Hnn Hcanon. eexists. split; [by apply parseGPUMetrics_returns|].
  set (st := MetricSpec.run (points_in_order results)).
  set (m := MetricSpec.with_node_utilization (Metrics.nodeUtilization st)
              <$> Metrics.metricsMap st).
  assert (∀ k r, m !! k = Some r →
            Keys.metric_identity r = k ∧ is_Some (Metrics.metricsMap st !! k)) as Hkey.
  { intros k r Hr. unfold m in Hr. rewrite lookup_fmap in Hr.
    destruct (Metrics.metricsMap st !! k) as [r0|] eqn:Hr0; [|done].
    simpl in Hr. injection Hr as <-. split; [|by eexists].
    rewrite <- (metric_identity_key (points_in_order results) k r0 Hcanon Hr0).
    unfold Keys.metric_identity.
    by destruct (with_node_utilization_identity (Metrics.nodeUtilization st) r0)
      as [-> ->]. }
  split.
  - intros r (k & Hk)%to_slice_elem. destruct (Hkey k r Hk) as [-> ?]. done.
  - intros i j a b Hij Ha Hb [Hnode Hidx].
    apply (NoDup_fmap_lookup Keys.metric_identity (elems (Metrics.to_slice m)) i j a b);
      [|done..|].
    + rewrite to_slice_elems. apply map_to_list_rendered. intros k r Hr.
      by destruct (Hkey k r Hr).
    + unfold Keys.metric_identity. by rewrite Hnode, Hidx.
Qed.

Lemma metrics_unique_identity_witness :
  ∃ out,
    Metrics.parseGPUMetrics (R := Reference.runtime) Examples.scenario = Done (out, None) ∧
    ∀ i j a b, i ≠ j → elems out !! i = Some a → elems out !! j = Some b →
      ¬ (GPUMetrics.NodeName a = GPUMetrics.NodeName b ∧
         GPUMetrics.GPUIndex a = GPUMetrics.GPUIndex b).
Proof.
  destruct (metrics_unique_identity (R := Reference.runtime)
              (GoRuntimeLaws0 := reference_laws) Examples.scenario scenario_no_nil
              scenario_labels_canonical)
    as (out & Hout & _ & Huniq).
  exists out. split; [exact Hout | exact Huniq].
Defined.

(** ** The fan-out: what reaches the parser, and which error is returned *)

Section fanout_results.
Variable Query : string → PrometheusResponse + error.

Lemma collect_lookup (tasks : list (string * string))
    (results : gmap string (option PrometheusResponse)) name :
  NoDup tasks.*1 →
  foldl (λ results task,
           match (Fanout.query_task Query task.1 task.2).1 with
           | Some resp => <[task.1 := Some resp]> results
           | None => results
           end) results tasks !! name =
  match (list_to_map tasks : gmap string string) !! name with
  | Some query =>
      match Query query with
      | inl resp => Some (Some resp)
      | inr _ => results !! name
      end
  | None => results !! name
  end.
Proof.
  revert results. induction tasks as [|[n q] tasks IH]; intros results Hnd; [done|].
  rewrite fmap_cons in Hnd. apply NoDup_cons in Hnd as [Hn Hnd].
  cbn [foldl fst snd]. rewrite IH by done. cbn [list_to_map foldr fst snd].
  unfold Fanout.query_task.
  destruct (decide (n = name)) as [->|Hne].
  - rewrite lookup_insert_eq.
    rewrite (not_elem_of_list_to_map_1 _ _ Hn).
    destruct (Query q); simpl; [by rewrite lookup_insert_eq | done].
  - rewrite lookup_insert_ne by done.
    destruct (list_to_map tasks !! name) as [query|];
      destruct (Query q); simpl; rewrite ?lookup_insert_ne by done; done.
Qed.

(** Whatever the order of arrival, the goroutines leave in [results] the
    responses of the queries that succeeded, under the query names. *)
Lemma collect_answers (queries : gmap string string) (arrival : list (string * string)) :
  arrival ≡ₚ map_to_list queries →
  Fanout.collect Query arrival = FanoutSpec.answers Query queries.
Proof.
  intros Hperm. apply map_eq. intros name.
  assert (NoDup arrival.*1) as Hnd.
  { rewrite Hperm. apply NoDup_fst_map_to_list. }
  unfold Fanout.collect. rewrite collect_lookup by done.
  rewrite (list_to_map_proper arrival (map_to_list queries) Hnd Hperm).
  rewrite list_to_map_to_list. unfold FanoutSpec.answers. rewrite lookup_omap.
  destruct (queries !! name) as [query|]; simpl; [|done].
  by destruct (Query query).
Qed.

(** The receiving loop returns the first error in the order of arrival. *)
Lemma first_error_first (pre post : list (string * string)) name query err :
  (∀ task, task ∈ pre → ∃ resp, Query task.2 = inl resp) →
  Query query = inr err →
  Fanout.first_error (Fanout.messages Query (pre ++ (name, query) :: post)) =
  Some (query_failed name err).
Proof.
  intros Hpre Herr. induction pre as [|t pre IH]; simpl.
  - unfold Fanout.query_task. by rewrite Herr.
  - unfold Fanout.query_task at 1.
    destruct (Hpre t) as (resp & ->); [apply elem_of_cons; by left|]. simpl.
    apply IH. intros task Hin. apply Hpre, elem_of_cons. by right.
Qed.
End fanout_results.

(** X9. Whatever the order in which the goroutines of GetGPUMetrics and
    GetGPUProcesses finish, the map [results] they leave holds the same
    entries: under the name of every query that succeeded its response,
    and nothing under the name of a query that failed, so no entry is
    nil and no response is lost or overwritten.  When every query
    succeeds the map has one entry per query and no error is received.
    (The order in which the parser then visits the map is not part of
    the statement.) *)
Theorem fanout_results_complete (Query : string → PrometheusResponse + error)
    (queries : gmap string string) (arrival : list (string * string)) :
  arrival ≡ₚ map_to_list queries →
  Fanout.collect Query arrival = FanoutSpec.answers Query queries ∧
  (∀ name response,
     Fanout.collect Query arrival !! name = Some response ↔
     ∃ query resp, queries !! name = Some query ∧ Query query = inl resp ∧
                   response = Some resp) ∧
  ((∀ name query, queries !! name = Some query → ∃ resp, Query query = inl resp) →
   dom (Fanout.collect Query arrival) = dom queries ∧
   Fanout.first_error (Fanout.messages Query arrival) = None).
Proof.
  intros Hperm.
  pose proof (collect_answers Query queries arrival Hperm) as Hcollect.
  split; [done|]. rewrite Hcollect. split.
  - intros name response. unfold FanoutSpec.answers. rewrite lookup_omap.
    destruct (queries !! name) as [query|]; simpl.
    + destruct (Query query) as [resp|err] eqn:Hq; split.
      * intros [= <-]. by exists query, resp.
      * intros (query' & resp' & [= <-] & Hq' & ->). congruence.
      * done.
      * intros (query' & resp' & [= <-] & Hq' & _). congruence.
    + split; [done|]. by intros (? & ? & ? & _).
  - intros Hall. split.
    + apply set_eq. intros name. rewrite !elem_of_dom.
      unfold FanoutSpec.answers. rewrite lookup_omap.
      destruct (queries !! name) as [query|] eqn:Hq; simpl.
      * destruct (Hall name query Hq) as (resp & ->). split; by eexists.
      * split; by intros [? ?].
    + apply first_error_none. intros [name query] Hin. rewrite Hperm in Hin.
      apply elem_of_map_to_list in Hin. by apply (Hall name).
Qed.

Lemma fanout_results_complete_witness :
  Fanout.collect Examples.empty_backend (reverse (map_to_list Metrics.queries)) =
  FanoutSpec.answers Examples.empty_backend Metrics.queries ∧
  Fanout.collect Examples.empty_backend (map_to_list Metrics.queries) =
  FanoutSpec.answers Examples.empty_backend Metrics.queries ∧
  size (FanoutSpec.answers Examples.empty_backend Metrics.queries) = 7.
Proof.
  split; [|split].
  - apply (fanout_results_complete Examples.empty_backend Metrics.queries
             (reverse (map_to_list Metrics.queries))).
    apply reverse_Permutation.
  - apply (fanout_results_complete Examples.empty_backend Metrics.queries
             (map_to_list Metrics.queries)).
    reflexivity.
  - vm_compute. reflexivity.
Defined.

(** X10. When queries fail, GetGPUMetrics and GetGPUProcesses return the
    error of the failed query whose message arrives first, wrapped as
    "query <name> failed: <cause>", and the nil slice; which of several
    failures that is depends on the order of arrival alone. *)
Theorem fanout_first_failure {R : GoRuntime}
    (Query : string → PrometheusResponse + error)
    (pre post : list (string * string)) (name query : string) (err : error) :
  (∀ task, task ∈ pre → ∃ resp, Query task.2 = inl resp) →
  Query query = inr err →
  Metrics.GetGPUMetrics Query (pre ++ (name, query) :: post) =
    Done (nil_slice, Some (query_failed name err)) ∧
  Processes.GetGPUProcesses Query (pre ++ (name, query) :: post) =
    Done (nil_slice, Some (query_failed name err)) ∧
  error_message (query_failed name err) =
    "query " +:+ name +:+ " failed: " +:+ error_message err.
Proof.
  intros Hpre Herr. split_and!.
  - unfold Metrics.GetGPUMetrics. by rewrite (first_error_first Query pre post name query err).
  - unfold Processes.GetGPUProcesses.
    by rewrite (first_error_first Query pre post name query err).
  - done.
Qed.

Lemma fanout_first_failure_witness :
  Metrics.GetGPUMetrics (R := Reference.runtime) Examples.failing_backend
    ([] ++ ("gpu_temperature", "gpu_metrics_temperature")
        :: [("gpu_mem_free", "gpu_metrics_free_memory")]) =
  Done (nil_slice,
        Some (query_failed "gpu_temperature"
                (errorString "executing request: connection refused"))).
Proof.
  apply (fanout_first_failure (R := Reference.runtime) Examples.failing_backend []
           [("gpu_mem_free", "gpu_metrics_free_memory")]
           "gpu_temperature" "gpu_metrics_temperature"
           (errorString "executing request: connection refused")).
  - intros task Hin. by apply elem_of_nil in Hin.
  - reflexivity.
Defined.

(** * The client *)

Section client.
Context {N : Client.Network}.

Lemma string_app_assoc (a b c : string) : (a +:+ b) +:+ c = a +:+ b +:+ c.
Proof. induction a as [|x a IH]; [reflexivity | exact (f_equal (String x) IH)]. Qed.

Lemma length_append_slash b : String.length (b +:+ "/") = S (String.length b).
Proof. induction b as [|c b IH]; [reflexivity | exact (f_equal S IH)]. Qed.

Lemma substring_last_slash b : substring (String.length b) 1 (b +:+ "/") = "/".
Proof. induction b as [|c b IH]; [reflexivity | exact IH]. Qed.

Lemma substring_before_slash b : substring 0 (String.length b) (b +:+ "/") = b.
Proof. induction b as [|c b IH]; [reflexivity | exact (f_equal (String c) IH)]. Qed.

Lemma TrimSuffix_slash b : Client.TrimSuffix (b +:+ "/") "/" = b.
Proof.
  unfold Client.TrimSuffix, Client.HasSuffix. rewrite length_append_slash.
  cbn [String.length]. replace (S (String.length b) - 1) with (String.length b) by lia.
  rewrite substring_last_slash, substring_before_slash. done.
Qed.

(** Query answers with a response exactly on the successful path. *)
Lemma Query_inl c query resp :
  Client.Query c query = inl resp ↔
  Client.NewRequest (Client.request_url c query) = None ∧
  ∃ body,
    Client.Do (Client.Timeout c) (Client.request_url c query) = inr (200%Z, inr body) ∧
    Client.Unmarshal body = inl resp ∧
    Status resp = "success".
Proof.
  unfold Client.Query.
  destruct (Client.NewRequest _) as [err|]; [split; [done | by intros [? _]]|].
  destruct (Client.Do _ _) as [err|[code [err|body]]].
  - split; [done | by intros (_ & ? & ? & _)].
  - split; [done | by intros (_ & ? & ? & _)].
  - destruct (decide (code ≠ 200%Z)) as [Hcode|Hcode].
    + split; [done|]. intros (_ & body' & [= -> _] & _). done.
    + assert (code = 200%Z) as -> by lia.
      destruct (Client.Unmarshal body) as [promResp|err] eqn:Hbody.
      * destruct (decide (Status promResp ≠ "success")) as [Hst|Hst].
        -- split; [done|]. intros (_ & body' & [= <-] & Hresp & ?). congruence.
        -- split.
           ++ intros [= <-]. split; [done|]. exists body. split_and!; [done..|].
              by destruct (decide (Status promResp = "success")).
           ++ intros (_ & body' & [= <-] & Hresp & _). congruence.
      * split; [done|]. intros (_ & body' & [= <-] & Hresp & _). congruence.
Qed.

Lemma Query_bad_status c query code body :
  Client.NewRequest (Client.request_url c query) = None →
  Client.Do (Client.Timeout c) (Client.request_url c query) = inr (code, inr body) →
  code ≠ 200%Z →
  Client.Query c query =
  inr (errorString ("prometheus API error: status " +:+ Itoa code +:+ ", body: " +:+ body)).
Proof.
  intros Hreq Hdo Hcode. unfold Client.Query. rewrite Hreq, Hdo.
  by rewrite decide_True.
Qed.
End client.

(** X11. Query returns a response exactly when the request could be
    built, the transport and the reading of the body succeeded, the
    status code is 200, the body decodes, and the decoded status is
    "success"; the response is the decoded body.  So every response the
    correlators receive has the status "success". *)
Theorem Query_success {N : Client.Network} (c : Client.t) (query : string)
    (resp : PrometheusResponse) :
  (Client.Query c query = inl resp ↔
   Client.NewRequest (Client.request_url c query) = None ∧
   ∃ body,
     Client.Do (Client.Timeout c) (Client.request_url c query) = inr (200%Z, inr body) ∧
     Client.Unmarshal body = inl resp ∧
     Status resp = "success") ∧
  (Client.Query c query = inl resp → Status resp = "success").
Proof.
  split; [apply Query_inl|].
  intros (_ & body & _ & _ & ?)%Query_inl. done.
Qed.

(** X12. A status code other than 200 makes Query fail with an error
    that quotes the code and the body, whatever the body holds, also a
    body that would decode to a successful response. *)
Theorem Query_status_first {N : Client.Network} (c : Client.t) (query : string)
    (code : Z) (body : string) :
  Client.NewRequest (Client.request_url c query) = None →
  Client.Do (Client.Timeout c) (Client.request_url c query) = inr (code, inr body) →
  code ≠ 200%Z →
  Client.Query c query =
  inr (errorString ("prometheus API error: status " +:+ Itoa code +:+ ", body: " +:+ body)).
Proof. apply Query_bad_status. Qed.

Lemma Query_status_first_witness :
  Client.Query (N := Examples.unavailable_network)
    (Client.NewClient "http://prometheus:9090") "up" =
  inr (errorString "prometheus API error: status 503, body: Service Unavailable").
Proof.
  apply (Query_status_first (N := Examples.unavailable_network)
           (Client.NewClient "http://prometheus:9090") "up" 503%Z "Service Unavailable");
    [reflexivity | reflexivity | done].
Defined.

(** X13. NewClient drops one slash from the end of the base URL: a base
    URL and the same URL followed by a slash give the same client, hence
    the same request URL and the same answer to every query. *)
Theorem NewClient_trailing_slash {N : Client.Network} (base query : string) :
  Client.HasSuffix base "/" = false →
  Client.baseURL (Client.NewClient base) = base ∧
  Client.NewClient (base +:+ "/") = Client.NewClient base ∧
  Client.request_url (Client.NewClient (base +:+ "/")) query =
    base +:+ "/api/v1/query?query=" +:+ Client.QueryEscape query +:+ "&time=" +:+
    Client.QueryEscape (Itoa (Client.Unix query)) ∧
  Client.Query (Client.NewClient (base +:+ "/")) query =
    Client.Query (Client.NewClient base) query.
Proof.
  intros Hsuffix.
  assert (Client.baseURL (Client.NewClient base) = base) as Hbase.
  { unfold Client.NewClient, Client.TrimSuffix. simpl. by rewrite Hsuffix. }
  assert (Client.NewClient (base +:+ "/") = Client.NewClient base) as Hsame.
  { unfold Client.NewClient. rewrite TrimSuffix_slash.
    unfold Client.TrimSuffix. by rewrite Hsuffix. }
  split_and!; [done | done | | by rewrite Hsame].
  rewrite Hsame. unfold Client.request_url. rewrite Hbase.
  by rewrite string_app_assoc.
Qed.

Lemma NewClient_trailing_slash_witness :
  Client.HasSuffix "http://prometheus:9090" "/" = false ∧
  Client.NewClient "http://prometheus:9090/" = Client.NewClient "http://prometheus:9090".
Proof.
  split; [reflexivity|].
  apply (NewClient_trailing_slash (N := Examples.healthy_network)
           "http://prometheus:9090" "up").
  reflexivity.
Defined.

(** Only one slash is dropped. *)
Example NewClient_two_slashes :
  Client.baseURL (Client.NewClient "http://prometheus:9090//") = "http://prometheus:9090/".
Proof. reflexivity. Qed.

(** ** From the network to the records *)

(** X14. GetGPUProcesses over the client: when the request for
    gpu_process_gpu_memory is answered with a status other than 200, the
    call returns the nil slice and the error "query gpu_memory failed:
    prometheus API error: status <code>, body: <body>"; when it is
    answered with status 200 and a body that decodes to a successful
    response, the call returns what parseGPUProcesses makes of that
    response. *)
Theorem processes_over_client {R : GoRuntime} {N : Client.Network}
    (c : Client.t) (arrival : list (string * string)) :
  arrival ≡ₚ map_to_list Processes.queries →
  Client.NewRequest (Client.request_url c "gpu_process_gpu_memory") = None →
  (∀ code body,
     Client.Do (Client.Timeout c) (Client.request_url c "gpu_process_gpu_memory") =
       inr (code, inr body) →
     code ≠ 200%Z →
     ∃ err,
       Processes.GetGPUProcesses (Client.Query c) arrival = Done (nil_slice, Some err) ∧
       error_message err =
         "query gpu_memory failed: prometheus API error: status " +:+ Itoa code +:+
         ", body: " +:+ body) ∧
  (∀ body resp,
     Client.Do (Client.Timeout c) (Client.request_url c "gpu_process_gpu_memory") =
       inr (200%Z, inr body) →
     Client.Unmarshal body = inl resp →
     Status resp = "success" →
     Processes.GetGPUProcesses (Client.Query c) arrival =
     Processes.parseGPUProcesses {[ "gpu_memory" := Some resp ]}).
Proof.
  intros Hperm Hreq.
  assert (arrival = [("gpu_memory", "gpu_process_gpu_memory")]) as ->.
  { apply Permutation_singleton_r. rewrite Hperm. unfold Processes.queries.
    by rewrite map_to_list_singleton. }
  split.
  - intros code body Hdo Hcode.
    pose proof (Query_bad_status c _ code body Hreq Hdo Hcode) as Hq.
    eexists. split.
    + assert (Fanout.first_error
                (Fanout.messages (Client.Query c)
                   [("gpu_memory", "gpu_process_gpu_memory")]) =
              Some (query_failed "gpu_memory"
                      (errorString ("prometheus API error: status " +:+ Itoa code +:+
                                    ", body: " +:+ body)))) as Hfirst.
      { apply (first_error_first (Client.Query c) [] []); [|exact Hq].
        intros task Hin. by apply elem_of_nil in Hin. }
      unfold Processes.GetGPUProcesses. by rewrite Hfirst.
    + done.
  - intros body resp Hdo Hbody Hstatus.
    assert (Client.Query c "gpu_process_gpu_memory" = inl resp) as Hq.
    { apply Query_inl. split; [done|]. by exists body. }
    unfold Processes.GetGPUProcesses. simpl. unfold Fanout.query_task. rewrite Hq.
    simpl. unfold Fanout.collect. simpl. unfold Fanout.query_task. rewrite Hq. simpl.
    by rewrite insert_empty.
Qed.

Lemma processes_over_client_witness :
  ∃ err,
    Processes.GetGPUProcesses (R := Reference.runtime)
      (Client.Query (N := Examples.unavailable_network)
         (Client.NewClient "http://prometheus:9090"))
      (map_to_list Processes.queries) = Done (nil_slice, Some err) ∧
    error_message err =
      "query gpu_memory failed: prometheus API error: status 503, body: Service Unavailable".
Proof.
  destruct (processes_over_client (R := Reference.runtime)
              (N := Examples.unavailable_network)
              (Client.NewClient "http://prometheus:9090")
              (map_to_list Processes.queries) (reflexivity _) (reflexivity _))
    as [Hfail _].
  apply (Hfail 503%Z "Service Unavailable"); [reflexivity | done].
Defined.

(** ** The handlers *)

(** X15. The two record endpoints over the client: if a query fails the
    handler answers with status 500, [Success] false, no data and a
    fixed message that does not quote the cause; if every query succeeds
    it answers with status 200, [Success] true and, as data, the slice
    the call returned.  No answer carries both an error and data. *)
Theorem handlers_report_failure {R : GoRuntime} `{!GoRuntimeLaws R} {N : Client.Network}
    (c : Client.t) (arrival_metrics arrival_processes : list (string * string)) :
  arrival_metrics ≡ₚ map_to_list Metrics.queries →
  arrival_processes ≡ₚ map_to_list Processes.queries →
  let h := Handlers.prometheus_client c arrival_metrics arrival_processes in
  ((∀ name query err, Metrics.queries !! name = Some query →
      Client.Query c query = inr err →
      Handlers.GetGPUMetrics h =
      Done {| Handlers.ContentType := "application/json";
              Handlers.Code := 500;
              Handlers.Body :=
                {| Handlers.Success := false; Handlers.Message := "";
                   Handlers.Data := None;
                   Handlers.Error := "Failed to retrieve GPU metrics" |} |}) ∧
   ((∀ name query, Metrics.queries !! name = Some query →
       ∃ resp, Client.Query c query = inl resp) →
      ∃ out,
        Metrics.GetGPUMetrics (Client.Query c) arrival_metrics = Done (out, None) ∧
        Handlers.GetGPUMetrics h =
        Done {| Handlers.ContentType := "application/json";
                Handlers.Code := 200;
                Handlers.Body :=
                  {| Handlers.Success := true;
                     Handlers.Message := "GPU metrics retrieved successfully";
                     Handlers.Data := Some out;
                     Handlers.Error := "" |} |})) ∧
  ((∀ err, Client.Query c "gpu_process_gpu_memory" = inr err →
      Handlers.GetGPUProcesses h =
      Done {| Handlers.ContentType := "application/json";
              Handlers.Code := 500;
              Handlers.Body :=
                {| Handlers.Success := false; Handlers.Message := "";
                   Handlers.Data := None;
                   Handlers.Error := "Failed to retrieve GPU processes" |} |}) ∧
   (∀ resp, Client.Query c "gpu_process_gpu_memory" = inl resp →
      ∃ out,
        Processes.GetGPUProcesses (Client.Query c) arrival_processes =
          Done (mk_slice out, None) ∧
        Handlers.GetGPUProcesses h =
        Done {| Handlers.ContentType := "application/json";
                Handlers.Code := 200;
                Handlers.Body :=
                  {| Handlers.Success := true;
                     Handlers.Message := "GPU processes retrieved successfully";
                     Handlers.Data := Some (mk_slice out);
                     Handlers.Error := "" |} |})).
Proof.
  intros Hm Hp h.
  assert (arrival_processes = [("gpu_memory", "gpu_process_gpu_memory")]) as Hsingle.
  { apply Permutation_singleton_r. rewrite Hp. unfold Processes.queries.
    by rewrite map_to_list_singleton. }
  split; split.
  - intros name query err Hq Herr.
    destruct (first_error_failed (Client.Query c) arrival_metrics (name, query) err)
      as (task & err' & _ & _ & Hfirst); [|done|].
    { rewrite Hm. by apply elem_of_map_to_list. }
    unfold Handlers.GetGPUMetrics, h. simpl.
    unfold Metrics.GetGPUMetrics. by rewrite Hfirst.
  - intros Hall.
    assert (Fanout.first_error (Fanout.messages (Client.Query c) arrival_metrics) = None)
      as Hnone.
    { apply first_error_none. intros [name query] Hin. rewrite Hm in Hin.
      apply elem_of_map_to_list in Hin. by apply (Hall name). }
    unfold Handlers.GetGPUMetrics, h. simpl.
    unfold Metrics.GetGPUMetrics. rewrite Hnone.
    rewrite parseGPUMetrics_returns by apply collect_no_nil.
    eexists. split; done.
  - intros err Herr. subst arrival_processes.
    unfold Handlers.GetGPUProcesses, h. simpl.
    unfold Processes.GetGPUProcesses. simpl. unfold Fanout.query_task.
    by rewrite Herr.
  - intros resp Hresp. subst arrival_processes.
    unfold Handlers.GetGPUProcesses, h. simpl.
    unfold Processes.GetGPUProcesses. simpl. unfold Fanout.query_task.
    rewrite Hresp. simpl. rewrite parseGPUProcesses_returns.
    eexists. split; done.
Qed.

Lemma handlers_report_failure_witness :
  Handlers.GetGPUProcesses
    (Handlers.prometheus_client (R := Reference.runtime) (N := Examples.unavailable_network)
       (Client.NewClient "http://prometheus:9090")
       (map_to_list Metrics.queries) (map_to_list Processes.queries)) =
  Done {| Handlers.ContentType := "application/json";
          Handlers.Code := 500;
          Handlers.Body :=
            {| Handlers.Success := false; Handlers.Message := "";
               Handlers.Data := None;
               Handlers.Error := "Failed to retrieve GPU processes" |} |}.
Proof.
  destruct (handlers_report_failure (R := Reference.runtime)
              (GoRuntimeLaws0 := reference_laws) (N := Examples.unavailable_network)
              (Client.NewClient "http://prometheus:9090")
              (map_to_list Metrics.queries) (map_to_list Processes.queries)
              (reflexivity _) (reflexivity _))
    as [_ [Hfail _]].
  apply (Hfail (errorString
                  "prometheus API error: status 503, body: Service Unavailable")).
  reflexivity.
Defined.

(** X16. The health check over the client answers with status 200
    exactly when the query "up" succeeds, that is, when its request is
    answered with status 200 and a body that decodes to a successful
    response; otherwise it answers with status 503 and the message
    "Prometheus connection failed". *)
Theorem health_check_status {R : GoRuntime} {N : Client.Network}
    (c : Client.t) (arrival_metrics arrival_processes : list (string * string)) :
  let h := Handlers.prometheus_client c arrival_metrics arrival_processes in
  (Handlers.Code (Handlers.HealthCheck h) = 200%Z ↔
   Client.NewRequest (Client.request_url c "up") = None ∧
   ∃ body resp,
     Client.Do (Client.Timeout c) (Client.request_url c "up") = inr (200%Z, inr body) ∧
     Client.Unmarshal body = inl resp ∧ Status resp = "success") ∧
  (Handlers.Code (Handlers.HealthCheck h) ≠ 200%Z →
   Handlers.HealthCheck h =
   {| Handlers.ContentType := "application/json";
      Handlers.Code := 503;
      Handlers.Body :=
        {| Handlers.Success := false; Handlers.Message := "";
           Handlers.Data := None;
           Handlers.Error := "Prometheus connection failed" |} |}) ∧
  Handlers.Success (Handlers.Body (Handlers.HealthCheck h)) =
    bool_decide (Handlers.Code (Handlers.HealthCheck h) = 200%Z).
Proof.
  intros h. unfold Handlers.HealthCheck, h. simpl.
  destruct (Client.Query c "up") as [resp|err] eqn:Hq; simpl.
  - split_and!; [|done..]. split; [|done]. intros _.
    apply Query_inl in Hq as (Hreq & body & Hdo & Hbody & Hstatus).
    split; [done|]. by exists body, resp.
  - split_and!; [|done..]. split; [done|].
    intros (Hreq & body & resp & Hdo & Hbody & Hstatus).
    assert (Client.Query c "up" = inl resp) as Hq'.
    { apply Query_inl. split; [done|]. by exists body. }
    congruence.
Qed.
